(** * SPX_project: the signal-to-return pipeline

    A shallow embedding of the sector-momentum back-testing code
    (src/stats_calculator.py, src/backtest.py, src/benchmark.py and
    src/strategy/momentum_sector_LS.py) together with the properties the
    specification states about it.

    Conventions of the embedding.
    - A numpy float64 is a [number]: a finite value is kept as an exact
      rational, the three special values [PInf], [NInf] and [NaN] are kept
      as such.  Rounding of finite results and the sign of zero are not
      modelled.  The one computation whose integer result depends on
      rounding, [int((11 / 12) * periods_per_year)], is carried out on
      binary64 floats.
    - A pandas Series is the list of its values in index order; where the
      code aligns on labels the index is kept next to the values.  A
      DataFrame is the list of its rows, except for the momentum score,
      which pandas computes column by column.
    - A Python exception is the left summand of [result]. *)

From Stdlib Require Import ZArith QArith Qcanon Qcabs Ascii String Lia.
From Stdlib Require PrimFloat FloatOps SpecFloat.
From stdpp Require Import gmap strings list sorting.

Open Scope Z_scope.

(** ** Exceptions *)

Inductive exn : Type :=
  | ValueError (msg : string)
  | IndexError
  | IndexingError
  | KeyError (key : string)
  | AttributeError
  | OverflowError.

#[global] Instance exn_eq_dec : EqDecision exn.
Proof. solve_decision. Defined.

Abbreviation result A := (exn + A)%type.

Definition raise {A} (e : exn) : result A := inl e.
Definition ret {A} (a : A) : result A := inr a.
Definition bind {A B} (r : result A) (k : A -> result B) : result B :=
  match r with
  | inl e => inl e
  | inr a => k a
  end.

Notation "'let*' x ':=' r 'in' k" := (bind r (fun x => k))
  (at level 10, x pattern, r at level 100, k at level 200).

(** ** Numbers *)

Inductive number : Type :=
  | Fin (q : Qc)
  | PInf
  | NInf
  | NaN.

#[global] Instance number_eq_dec : EqDecision number.
Proof. solve_decision. Defined.

Definition of_Z (z : Z) : number := Fin (Q2Qc (inject_Z z)).

Definition zero : number := Fin 0%Qc.
Definition one : number := Fin 1%Qc.

Definition isna (x : number) : bool :=
  match x with NaN => true | _ => false end.

Definition notna (x : number) : bool := negb (isna x).

Definition isinf (x : number) : bool :=
  match x with PInf | NInf => true | _ => false end.

Definition isfinite (x : number) : bool :=
  match x with Fin _ => true | _ => false end.

Definition nneg (x : number) : number :=
  match x with
  | Fin a => Fin (- a)%Qc
  | PInf => NInf
  | NInf => PInf
  | NaN => NaN
  end.

Definition nadd (x y : number) : number :=
  match x, y with
  | NaN, _ | _, NaN => NaN
  | Fin a, Fin b => Fin (a + b)%Qc
  | PInf, NInf | NInf, PInf => NaN
  | PInf, _ | _, PInf => PInf
  | NInf, _ | _, NInf => NInf
  end.

Definition nsub (x y : number) : number := nadd x (nneg y).

(** The infinity of the sign of [q] times [pos]; [0 * inf] is not a number. *)
Definition inf_of_sign (pos : bool) (q : Qc) : number :=
  match (q ?= 0)%Qc with
  | Eq => NaN
  | Gt => if pos then PInf else NInf
  | Lt => if pos then NInf else PInf
  end.

Definition nmul (x y : number) : number :=
  match x, y with
  | NaN, _ | _, NaN => NaN
  | Fin a, Fin b => Fin (a * b)%Qc
  | PInf, Fin b | Fin b, PInf => inf_of_sign true b
  | NInf, Fin b | Fin b, NInf => inf_of_sign false b
  | PInf, PInf | NInf, NInf => PInf
  | PInf, NInf | NInf, PInf => NInf
  end.

(** numpy's true division: [0 / 0] is NaN, [x / 0] an infinity. *)
Definition ndiv (x y : number) : number :=
  match x, y with
  | NaN, _ | _, NaN => NaN
  | Fin a, Fin b =>
      match (b ?= 0)%Qc with
      | Eq => inf_of_sign true a
      | _ => Fin (a / b)%Qc
      end
  | Fin _, (PInf | NInf) => zero
  | (PInf | NInf), (PInf | NInf) => NaN
  | PInf, Fin b => match (b ?= 0)%Qc with Lt => NInf | _ => PInf end
  | NInf, Fin b => match (b ?= 0)%Qc with Lt => PInf | _ => NInf end
  end.

Definition nabs (x : number) : number :=
  match x with
  | Fin a => Fin (Qcabs a)
  | PInf | NInf => PInf
  | NaN => NaN
  end.

(** [x <= y]; every comparison with NaN is false. *)
Definition nleb (x y : number) : bool :=
  match x, y with
  | NaN, _ | _, NaN => false
  | NInf, _ | _, PInf => true
  | Fin a, Fin b => match (a ?= b)%Qc with Gt => false | _ => true end
  | _, _ => false
  end.

(** [x > y] *)
Definition ngtb (x y : number) : bool :=
  match x, y with
  | NaN, _ | _, NaN => false
  | _, _ => negb (nleb x y)
  end.

(** [x == y] of numpy: NaN differs from itself. *)
Definition neqb (x y : number) : bool :=
  match x, y with
  | NaN, _ | _, NaN => false
  | _, _ => bool_decide (x = y)
  end.

Definition fillna (v x : number) : number :=
  match x with NaN => v | _ => x end.

(** ** pandas reductions (skipna=True, the default) *)

Definition dropna (l : list number) : list number := List.filter notna l.

(** [Series.sum()] / [DataFrame.sum(axis=1)] on one row. *)
Definition nansum (l : list number) : number :=
  foldr nadd zero (dropna l).

(** The sum as mathematics writes it, with no value skipped. *)
Definition total (l : list number) : number := foldr nadd zero l.

Definition nanprod (l : list number) : number :=
  foldr nmul one (dropna l).

Definition count (l : list number) : Z := Z.of_nat (length (dropna l)).

Definition nanmean (l : list number) : number :=
  match dropna l with
  | [] => NaN
  | v => ndiv (foldr nadd zero v) (of_Z (Z.of_nat (length v)))
  end.

Definition nmin (x y : number) : number := if nleb x y then x else y.
Definition nmax (x y : number) : number := if nleb x y then y else x.

Definition nanmin (l : list number) : number :=
  match dropna l with
  | [] => NaN
  | x :: v => foldl nmin x v
  end.

(** [Series.cumprod()] and [Series.cummax()]: a missing value stays
    missing and does not enter the running value. *)
Fixpoint cum_from (op : number -> number -> number) (acc : option number)
    (l : list number) : list number :=
  match l with
  | [] => []
  | NaN :: l' => NaN :: cum_from op acc l'
  | x :: l' =>
      let a := match acc with None => x | Some a => op a x end in
      a :: cum_from op (Some a) l'
  end.

Definition cumprod (l : list number) : list number := cum_from nmul None l.
Definition cummax (l : list number) : list number := cum_from nmax None l.

(** [Series.shift(1)]: one period later, the first value missing. *)
Definition shift1 (l : list number) : list number :=
  match l with
  | [] => []
  | _ => NaN :: removelast l
  end.

(** The values a window of [w] periods ending at period [t] covers. *)
Definition window_values (w t : nat) (l : list number) : list number :=
  take (t + 1 - (t + 1 - w)) (drop (t + 1 - w) l).

(** [rolling(window=w, min_periods=mp).mean()] at period [t].  pandas
    turns infinite values into missing ones before it rolls. *)
Definition rolling_mean_at (w mp : nat) (l : list number) (t : nat) : number :=
  let obs := List.filter isfinite (window_values w t l) in
  if (mp <=? length obs)%nat && (1 <=? length obs)%nat
  then ndiv (total obs) (of_Z (Z.of_nat (length obs)))
  else NaN.

(** The checks [rolling(window=w, min_periods=mp)] makes on its arguments. *)
Definition rolling_validate (w mp : Z) : result unit :=
  if w <? 0 then raise (ValueError "window must be an integer 0 or greater")
  else if w <? mp then raise (ValueError "min_periods must be <= window")
  else ret tt.

Definition rolling_mean (w mp : Z) (l : list number) : result (list number) :=
  let* _ := rolling_validate w mp in
  ret (map (rolling_mean_at (Z.to_nat w) (Z.to_nat mp) l) (seq 0 (length l))).

(** ** Python's [float] for the window length *)

(** [float(z)]: the binary64 value nearest to the integer [z]. *)
Definition float_of_Z (z : Z) : PrimFloat.float :=
  FloatOps.SF2Prim (SpecFloat.binary_normalize FloatOps.prec FloatOps.emax z 0 false).

(** [int(x)]: truncation towards zero; raises on an infinity or NaN. *)
Definition int_of_float (x : PrimFloat.float) : result Z :=
  match FloatOps.Prim2SF x with
  | SpecFloat.S754_zero _ => ret 0
  | SpecFloat.S754_finite s m e =>
      let v := if 0 <=? e then Z.pos m * 2 ^ e else Z.pos m / 2 ^ (- e) in
      ret (if s then - v else v)
  | SpecFloat.S754_infinity _ => raise OverflowError
  | SpecFloat.S754_nan => raise (ValueError "cannot convert float NaN to integer")
  end.

(** ** strategy/momentum_sector_LS.py *)

Definition freq_to_periods : gmap string Z :=
  list_to_map [("D", 252); ("W", 52); ("2W", 26); ("M", 12)]%string.

(** [MomentumSectorLongShortStrategy._determine_window_size] *)
Definition _determine_window_size (trading_frequency : string) : result Z :=
  match freq_to_periods !! trading_frequency with
  | None => raise (ValueError "Invalid trading frequency.")
  | Some periods_per_year =>
      if periods_per_year =? 0
      then raise (ValueError "Invalid trading frequency.")
      else
        let* window_size :=
          int_of_float (PrimFloat.mul (PrimFloat.div (float_of_Z 11) (float_of_Z 12))
                                      (float_of_Z periods_per_year)) in
        ret (if window_size <? 1 then 1 else window_size)
  end.

(** The keys of the frequency tables. *)
Definition frequencies : list string := ["D"; "W"; "2W"; "M"]%string.

(** The window the momentum score rolls over: [window_size-1] at line 77. *)
Definition momentum_window (trading_frequency : string) : result Z :=
  let* window_size := _determine_window_size trading_frequency in
  ret (window_size - 1).

(** The momentum score of one sector: line 77 of [generate_signals],
    column by column. *)
Definition sector_return_momentum (trading_frequency : string)
    (sector_avg_returns : list number) : result (list number) :=
  let* window_size := _determine_window_size trading_frequency in
  rolling_mean (window_size - 1) 1 (shift1 sector_avg_returns).

(** [str.upper()] on the ASCII letters. *)
Definition upper_ascii (c : ascii) : ascii :=
  let n := nat_of_ascii c in
  if ((97 <=? n) && (n <=? 122))%nat then ascii_of_nat (n - 32) else c.

Fixpoint upper (s : string) : string :=
  match s with
  | EmptyString => EmptyString
  | String c s' => String (upper_ascii c) (upper s')
  end.

(** A date is its day number; [pd.to_datetime] has been applied. *)
Abbreviation date := Z (only parsing).

Record Kwargs := {
  kw_num_sectors : option Z;
  kw_trading_frequency : option string;
  kw_start_date : option date;
  kw_end_date : option date;
  kw_invert_long : option bool;
  kw_invert_short : option bool;
  kw_legs : option string
}.

Record Params := {
  num_sectors : Z;
  trading_frequency : string;
  start_date : date;
  end_date : option date;
  invert_long : bool;
  invert_short : bool;
  legs : string
}.

(** 1980-01-01 *)
Definition default_start_date : date := 3652.

Definition valid_legs : list string := ["L"; "S"; "LS"; "ALL"]%string.

(** [MomentumSectorLongShortStrategy.set_parameters] *)
Definition set_parameters (kwargs : Kwargs) : result Params :=
  let p := {| num_sectors := default 5 (kw_num_sectors kwargs);
              trading_frequency := upper (default "M"%string (kw_trading_frequency kwargs));
              start_date := default default_start_date (kw_start_date kwargs);
              end_date := kw_end_date kwargs;
              invert_long := default false (kw_invert_long kwargs);
              invert_short := default false (kw_invert_short kwargs);
              legs := upper (default "ALL"%string (kw_legs kwargs)) |} in
  if bool_decide (legs p ∈ valid_legs) then ret p
  else raise (ValueError "Invalid legs parameter.").

(** The date filter of [generate_signals] (lines 56-59) and of
    [Benchmark.calculate_returns] (lines 27-31). *)
Definition date_mask (start : date) (end_ : option date) (index : list date) : list bool :=
  match end_ with
  | Some e => map (fun d => (start <=? d) && (d <=? e)) index
  | None => map (fun d => start <=? d) index
  end.

(** [df.loc[mask]] on the index. *)
Fixpoint loc_mask {A} (mask : list bool) (l : list A) : list A :=
  match mask, l with
  | b :: mask', x :: l' => if b then x :: loc_mask mask' l' else loc_mask mask' l'
  | _, _ => []
  end.

(** A stable sort, as pandas' selection uses (mergesort on the keys). *)
Fixpoint insert_by {A} (le : A -> A -> bool) (x : A) (l : list A) : list A :=
  match l with
  | [] => [x]
  | y :: l' => if le x y then x :: y :: l' else y :: insert_by le x l'
  end.

Definition sort_by {A} (le : A -> A -> bool) (l : list A) : list A :=
  foldr (insert_by le) [] l.

(** A row of scores with its column labels (positions). *)
Definition labelled (row : list number) : list (nat * number) :=
  imap (fun j x => (j, x)) row.

(** [momentum.dropna()] *)
Definition valid (row : list number) : list (nat * number) :=
  List.filter (fun p => notna (snd p)) (labelled row).

(** [Series.nlargest(n).index] and [Series.nsmallest(n).index] with
    keep='first': the first [n] labels of the stable order. *)
Definition nlargest (n : Z) (s : list (nat * number)) : list nat :=
  if n <=? 0 then []
  else map fst (take (Z.to_nat n) (sort_by (fun p q => nleb (snd q) (snd p)) s)).

Definition nsmallest (n : Z) (s : list (nat * number)) : list nat :=
  if n <=? 0 then []
  else map fst (take (Z.to_nat n) (sort_by (fun p q => nleb (snd p) (snd q)) s)).

(** [presence.loc[date, sectors] = 1] on the row of [date]. *)
Definition set_ones (cols : list nat) (row : list number) : list number :=
  foldr (fun j r => <[j := one]> r) row cols.

Definition num_selected_sectors (k : Z) (momentum : list number) : Z :=
  Z.min k (Z.of_nat (length (valid momentum)) / 2).

(** One turn of the loop of [generate_signals] (lines 83-93): the rows of
    the top and of the bottom presence matrix at one date. *)
Definition select_row (k : Z) (momentum : list number) : list number * list number :=
  let blank := replicate (length momentum) zero in
  let valid_momentum := valid momentum in
  let n := num_selected_sectors k momentum in
  if n =? 0 then (blank, blank)
  else (set_ones (nlargest n valid_momentum) blank,
        set_ones (nsmallest n valid_momentum) blank).

(** [m.div(m.sum(axis=1), axis=0).fillna(0)] on one row. *)
Definition equal_weights (presence_row : list number) : list number :=
  let s := nansum presence_row in
  map (fun e => fillna zero (ndiv e s)) presence_row.

Definition long_row (invert : bool) (top : list number) : list number :=
  let w := equal_weights top in
  if invert then map nneg w else w.

Definition short_row (invert : bool) (bottom : list number) : list number :=
  let w := map nneg (equal_weights bottom) in
  if invert then map nneg w else w.

(** [long_positions + short_positions] on one row. *)
Definition combined_row (long short : list number) : list number :=
  zip_with nadd long short.

Definition matrix := list (list number).

(** Row [t] of a frame held as its columns. *)
Definition row_of (cols : matrix) (t : nat) : list number :=
  map (fun c => nth t c NaN) cols.

Inductive positions_t : Type :=
  | OneLeg (m : matrix)
  | AllLegs (d : list (string * matrix)).

Record Signals := {
  positions : positions_t;
  asset_returns : matrix;
  sig_trading_frequency : string;
  top_presence_matrix : matrix;
  bottom_presence_matrix : matrix;
  combined_presence_matrix : matrix
}.

(** [MomentumSectorLongShortStrategy.generate_signals] from line 76 on:
    [sector_avg_returns] is given by its columns (one per sector), each
    [n_periods] long. *)
Definition generate_signals (p : Params) (n_periods : nat)
    (sector_avg_returns : matrix) : result Signals :=
  let* window_size := _determine_window_size (trading_frequency p) in
  let* _ := rolling_validate (window_size - 1) 1 in
  let momentum_cols :=
    map (fun c => map (rolling_mean_at (Z.to_nat (window_size - 1)) 1 (shift1 c))
                      (seq 0 (length c)))
        sector_avg_returns in
  let momentum_rows := map (row_of momentum_cols) (seq 0 n_periods) in
  let selected := map (select_row (num_sectors p)) momentum_rows in
  let top := map fst selected in
  let bottom := map snd selected in
  let long_positions := map (long_row (invert_long p)) top in
  let short_positions := map (short_row (invert_short p)) bottom in
  let combined_positions := zip_with combined_row long_positions short_positions in
  let* pos :=
    if String.eqb (legs p) "L" then ret (OneLeg long_positions)
    else if String.eqb (legs p) "S" then ret (OneLeg short_positions)
    else if String.eqb (legs p) "LS" then ret (OneLeg combined_positions)
    else if String.eqb (legs p) "ALL" then
      ret (AllLegs [("Long", long_positions); ("Short", short_positions);
                    ("Combined", combined_positions)]%string)
    else raise (ValueError "Invalid legs parameter.") in
  ret {| positions := pos;
         asset_returns := map (row_of sector_avg_returns) (seq 0 n_periods);
         sig_trading_frequency := trading_frequency p;
         top_presence_matrix := top;
         bottom_presence_matrix := bottom;
         combined_presence_matrix :=
           zip_with (zip_with (fun a b => nmin (nadd a b) one)) top bottom |}.

(** ** stats_calculator.py *)

(** [positions.diff()]: the first row is missing. *)
Definition diff (m : matrix) : matrix :=
  match m with
  | [] => []
  | r0 :: rest => map (fun _ => NaN) r0 :: zip_with (zip_with nsub) rest m
  end.

(** [row.abs().sum()] *)
Definition abs_sum (row : list number) : number := nansum (map nabs row).

(** [calculate_turnover] *)
Definition calculate_turnover (positions : matrix) : result (list number) :=
  let turnover := map abs_sum (diff positions) in
  match positions with
  | [] => raise IndexError
  | r0 :: _ => ret (<[0%nat := abs_sum r0]> turnover)
  end.

(** A Series with its index. *)
Definition series := list (date * number).

Inductive presence_t : Type :=
  | PresenceFrame (ncols : nat) (rows : list (date * list number))
  | PresenceSeries (s : series).

Definition presence_index (p : presence_t) : list date :=
  match p with
  | PresenceFrame _ rows => rows.*1
  | PresenceSeries s => s.*1
  end.

Definition lookup_label {A} (d : date) (rows : list (date * A)) : option A :=
  snd <$> List.find (fun r => Z.eqb (fst r) d) rows.

(** [presence.reindex(index)]: nothing to do on an identical index; a
    label the presence does not have gives missing values; an index with
    duplicates cannot be reindexed. *)
Definition reindex (p : presence_t) (index : list date) : result presence_t :=
  if bool_decide (presence_index p = index) then ret p
  else if bool_decide (NoDup (presence_index p)) then
    ret match p with
        | PresenceFrame n rows =>
            PresenceFrame n
              (map (fun d => (d, default (replicate n NaN) (lookup_label d rows))) index)
        | PresenceSeries s =>
            PresenceSeries (map (fun d => (d, default NaN (lookup_label d s))) index)
        end
  else raise (ValueError "cannot reindex on an axis with duplicate labels").

(** [presence.sum(axis=1) > 0], or [presence > 0] for a Series. *)
Definition active_periods (p : presence_t) : list (date * bool) :=
  match p with
  | PresenceFrame _ rows => map (fun r => (fst r, ngtb (nansum (snd r)) zero)) rows
  | PresenceSeries s => map (fun r => (fst r, ngtb (snd r) zero)) s
  end.

(** The mask brought to the index of the series it selects from: every
    entry of the mask under each label of the series, in order. *)
Fixpoint align_mask (index : list date) (mask : list (date * bool)) : result (list bool) :=
  match index with
  | [] => ret []
  | d :: index' =>
      match List.filter (fun m => Z.eqb (fst m) d) mask with
      | [] => raise IndexingError
      | found =>
          let* rest := align_mask index' mask in
          ret (found.*2 ++ rest)
      end
  end.

(** [s[mask]] for a boolean Series [mask]. *)
Definition getitem_bool (s : series) (mask : list (date * bool)) : result series :=
  if bool_decide (s.*1 = mask.*1) then ret (loc_mask mask.*2 s)
  else
    let* key := align_mask s.*1 mask in
    if bool_decide (length key = length s) then ret (loc_mask key s)
    else raise IndexError.

(** Lines 36-48 of [calculate_statistics]. *)
Definition filter_active (returns : series) (turnover : option series)
    (presence : option presence_t) : result (series * option series) :=
  match presence with
  | None => ret (returns, turnover)
  | Some presence =>
      let* presence := reindex presence returns.*1 in
      let active := active_periods presence in
      let* returns := getitem_bool returns active in
      match turnover with
      | None => ret (returns, None)
      | Some turnover =>
          let* turnover := getitem_bool turnover active in
          ret (returns, Some turnover)
      end
  end.

Definition freq_map : gmap string Z :=
  list_to_map [("D", 252); ("W", 52); ("2W", 26); ("M", 12)]%string.

(** The functions of numpy, pandas and scipy that leave the rationals. *)
Class NumericLib := {
  np_power : number -> number -> number;
  np_sqrt : number -> number;
  series_std : list number -> number;
  scipy_skew : list number -> number
}.

Section Statistics.
Context `{NumericLib}.

Definition hundred : number := of_Z 100.

(** [(1 + returns).prod()] *)
Definition total_return (returns : list number) : number :=
  nanprod (map (nadd one) returns).

Definition num_years (returns : list number) (periods_per_year : Z) : Qc :=
  (Q2Qc (inject_Z (Z.of_nat (length returns))) / Q2Qc (inject_Z periods_per_year))%Qc.

Definition annualized_return (returns : list number) (periods_per_year : Z) : number :=
  let num_years := num_years returns periods_per_year in
  if bool_decide (num_years = 0%Qc) then zero
  else nsub (np_power (total_return returns) (Fin (1 / num_years)%Qc)) one.

Definition annualized_std (returns : list number) (periods_per_year : Z) : number :=
  nmul (series_std returns) (np_sqrt (of_Z periods_per_year)).

Definition sharpe_ratio (returns : list number) (periods_per_year : Z) : number :=
  let annualized_std := annualized_std returns periods_per_year in
  if negb (neqb annualized_std zero)
  then ndiv (annualized_return returns periods_per_year) annualized_std
  else NaN.

Definition max_drawdown (returns : list number) : number :=
  let cumulative := cumprod (map (nadd one) returns) in
  let peak := cummax cumulative in
  let drawdown := zip_with (fun c p => ndiv (nsub c p) p) cumulative peak in
  nanmin drawdown.

(** [calculate_statistics] *)
Definition calculate_statistics (returns : series) (turnover : option series)
    (trading_frequency : string) (presence : option presence_t)
    : result (gmap string number) :=
  let* (returns, turnover) := filter_active returns turnover presence in
  let* periods_per_year :=
    match freq_map !! upper trading_frequency with
    | None => raise (ValueError "Invalid trading frequency.")
    | Some p => if p =? 0 then raise (ValueError "Invalid trading frequency.") else ret p
    end in
  let stats : gmap string number := ∅ in
  let stats := <["Annualized Return (%)"%string :=
                   nmul (annualized_return returns.*2 periods_per_year) hundred]> stats in
  let stats := <["Annualized Sharpe Ratio"%string :=
                   sharpe_ratio returns.*2 periods_per_year]> stats in
  let stats := <["Skewness"%string := scipy_skew returns.*2]> stats in
  let stats := <["Max Drawdown (%)"%string := nmul (max_drawdown returns.*2) hundred]> stats in
  let stats :=
    match turnover with
    | Some turnover =>
        <["Average Turnover (%)"%string := nmul (nanmean turnover.*2) hundred]> stats
    | None => <["Average Turnover (%)"%string := NaN]> stats
    end in
  ret stats.

End Statistics.

(** ** backtest.py and benchmark.py *)

(** [(asset_returns * positions).sum(axis=1)]: both frames carry the same
    index and columns. *)
Definition weighted_returns (asset_returns positions : matrix) : list number :=
  zip_with (fun r w => nansum (zip_with nmul r w)) asset_returns positions.

(** [Backtest.adjust_returns_for_transaction_costs]: the two Series carry
    the same index. *)
Definition adjust_returns_for_transaction_costs
    (returns turnover : list number) (transaction_cost_bps : number) : list number :=
  let transaction_costs :=
    map (fun t => nmul t (ndiv transaction_cost_bps (of_Z 10000))) turnover in
  zip_with nsub returns transaction_costs.

Record Entry := {
  entry_returns : list number;
  entry_turnover : list number;
  entry_trading_frequency : string
}.

(** What the orchestrator uses of a strategy: its name, leg code and
    cost setting, and the outcome of [generate_signals(); get_signals()]. *)
Record Strategy := {
  name : string;
  strategy_legs : string;
  transaction_cost_bps : number;
  signals : result Signals
}.

Definition leg_entry (strategy : Strategy) (s : Signals) (positions : matrix)
    : result Entry :=
  let* turnover := calculate_turnover positions in
  let strategy_returns := weighted_returns (asset_returns s) positions in
  let adjusted_returns :=
    adjust_returns_for_transaction_costs strategy_returns turnover
      (transaction_cost_bps strategy) in
  ret {| entry_returns := adjusted_returns;
         entry_turnover := turnover;
         entry_trading_frequency := sig_trading_frequency s |}.

Definition leg_key (strategy_name leg_name : string) : string :=
  (strategy_name ++ " - " ++ leg_name)%string.

Definition leg_names : gmap string string :=
  list_to_map [("L", "Long"); ("S", "Short"); ("LS", "Combined")]%string.

Fixpoint all_legs (strategy : Strategy) (s : Signals)
    (positions_dict : list (string * matrix)) : result (list (string * Entry)) :=
  match positions_dict with
  | [] => ret []
  | (leg_name, positions) :: rest =>
      let* e := leg_entry strategy s positions in
      let* es := all_legs strategy s rest in
      ret ((leg_key (name strategy) leg_name, e) :: es)
  end.

(** [Backtest.calculate_strategy_returns]: the entries of [returns_data]
    in the order they are inserted. *)
Definition calculate_strategy_returns (strategy : Strategy) (s : Signals)
    : result (list (string * Entry)) :=
  if String.eqb (strategy_legs strategy) "ALL" then
    match positions s with
    | AllLegs positions_dict => all_legs strategy s positions_dict
    | OneLeg _ => raise AttributeError
    end
  else
    match positions s with
    | OneLeg positions =>
        let* e := leg_entry strategy s positions in
        match leg_names !! strategy_legs strategy with
        | Some leg_name => ret [(leg_key (name strategy) leg_name, e)]
        | None => raise (KeyError (strategy_legs strategy))
        end
    | AllLegs _ => raise AttributeError
    end.

(** [dict.update]: later entries overwrite earlier ones. *)
Definition update (d : gmap string Entry) (items : list (string * Entry))
    : gmap string Entry :=
  foldl (fun d kv => <[fst kv := snd kv]> d) d items.

Fixpoint run_strategies (returns_dict : gmap string Entry) (strategies : list Strategy)
    : result (gmap string Entry) :=
  match strategies with
  | [] => ret returns_dict
  | strategy :: rest =>
      let* s := signals strategy in
      let* returns_data := calculate_strategy_returns strategy s in
      run_strategies (update returns_dict returns_data) rest
  end.

(** [Backtest.run_backtest]: [returns_dict] is the attribute as the call
    finds it, [benchmark] the entry read off the benchmark object. *)
Definition run_backtest (returns_dict : gmap string Entry) (benchmark : Entry)
    (strategies : list Strategy) : result (gmap string Entry) :=
  run_strategies (<["Benchmark"%string := benchmark]> returns_dict) strategies.

(** The momentum strategy as the orchestrator sees it. *)
Definition momentum_strategy (p : Params) (cost_bps : number) (n_periods : nat)
    (sector_avg_returns : matrix) : Strategy :=
  {| name := "Momentum Sector Long-Short Strategy";
     strategy_legs := legs p;
     transaction_cost_bps := cost_bps;
     signals := generate_signals p n_periods sector_avg_returns |}.

(** [Benchmark.calculate_returns] from line 44 on: [returns] are the
    presence-masked asset returns, [presence_shifted] the lagged presence,
    row by row.  The result is the pair of [self.returns] and
    [self.turnover]. *)
Definition benchmark_raw (returns presence_shifted : matrix)
    : result (list number * list number) :=
  let weights :=
    map (fun row => let s := nansum row in map (fun e => ndiv e s) row)
        presence_shifted in
  let turnover := map abs_sum (diff weights) in
  let* turnover :=
    match weights with
    | [] => raise IndexError
    | w0 :: _ => ret (<[0%nat := abs_sum w0]> turnover)
    end in
  let portfolio_returns := weighted_returns returns weights in
  ret (map (fillna zero) portfolio_returns, map (fillna zero) turnover).


(** Whether [sep] occurs in [s]: Python's [sep in s]. *)
Fixpoint contains (sep s : string) : bool :=
  String.prefix sep s ||
  match s with
  | EmptyString => false
  | String _ s' => contains sep s'
  end.

(** ** The specification's reading of the momentum window *)

(** Python's [round] of [n / 12]: to the nearest integer, a tie to the
    even one. *)
Definition round_twelfths (n : Z) : Z :=
  let q := n / 12 in
  let r := n mod 12 in
  if r <? 6 then q
  else if 6 <? r then q + 1
  else if Z.even q then q else q + 1.

(** The window of the specification:
    [round((11/12) * periods_per_year) - 1]. *)
Definition spec_window_length (periods_per_year : Z) : Z :=
  round_twelfths (11 * periods_per_year) - 1.

(** The returns of the [w] periods before period [t]. *)
Definition previous_periods (w t : nat) (col : list number) : list number :=
  take (t - (t - w)) (drop (t - w) col).

(** The mean of the finite values of [l], missing when there is none. *)
Definition mean_of_finite (l : list number) : number :=
  match List.filter isfinite l with
  | [] => NaN
  | obs => ndiv (total obs) (of_Z (Z.of_nat (length obs)))
  end.

(** The entry of the record for the average turnover (lines 89-94). *)
Definition average_turnover (turnover : option series) : number :=
  match turnover with
  | Some turnover => nmul (nanmean (turnover.*2)) (of_Z 100)
  | None => NaN
  end.

(** A numeric library to run the statistics with: every function that
    leaves the rationals answers "not a number". *)
Definition nan_lib : NumericLib :=
  {| np_power := fun _ _ => NaN;
     np_sqrt := fun _ => NaN;
     series_std := fun _ => NaN;
     scipy_skew := fun _ => NaN |}.

(** Whether the presence is active under the label [d]. *)
Definition active_at (p : presence_t) (d : date) : bool :=
  match p with
  | PresenceFrame n rows =>
      ngtb (nansum (default (replicate n NaN) (lookup_label d rows))) zero
  | PresenceSeries s => ngtb (default NaN (lookup_label d s)) zero
  end.

(** A mask that depends on the label only, on the index [index]. *)
Definition label_mask (g : date -> bool) (index : list date) : list (date * bool) :=
  map (fun d => (d, g d)) index.

(** The entries of [index] equal to [d]. *)
Definition occurrences (d : date) (index : list date) : list date :=
  List.filter (fun d' => Z.eqb d' d) index.

(** The labels of [index] all occur exactly once in [target], or the two
    indexes are the same. *)
Definition alignable (index target : list date) : Prop :=
  index = target \/ Forall (fun d => length (occurrences d target) = 1%nat) index.

(** A selected sector is a 1 of the presence row. *)
Definition is_one (e : number) : bool := bool_decide (e = one).

Definition count_ones (row : list number) : nat := length (List.filter is_one row).

(** A presence row holds zeros and ones only. *)
Definition binary_row (row : list number) : Prop :=
  Forall (fun e => e = zero \/ e = one) row.

(** The natural number [c] as a rational. *)
Definition Qc_of_nat (c : nat) : Qc := Q2Qc (inject_Z (Z.of_nat c)).

(** The labels of the first [c] entries in the stable order [le]. *)
Definition first_labels (le : nat * number -> nat * number -> bool) (c : nat)
    (s : list (nat * number)) : list nat :=
  map fst (take c (sort_by le s)).

(** The position matrices a strategy hands to the orchestrator. *)
Definition leg_matrices (pos : positions_t) : list matrix :=
  match pos with
  | OneLeg m => [m]
  | AllLegs d => d.*2
  end.

(** The legs a strategy hands over: each matrix of the dictionary under
    its name for the leg code ALL, the one matrix under the label of the
    leg code otherwise. *)
Definition leg_of (strategy : Strategy) (sg : Signals) (leg_name : string)
    (pos : matrix) : Prop :=
  match positions sg with
  | AllLegs d => strategy_legs strategy = "ALL"%string /\ (leg_name, pos) ∈ d
  | OneLeg m =>
      strategy_legs strategy <> "ALL"%string /\ m = pos /\
      leg_names !! strategy_legs strategy = Some leg_name
  end.

(** The entry of a leg as the cost formula gives it. *)
Definition is_leg_entry (strategy : Strategy) (sg : Signals) (pos : matrix)
    (e : Entry) : Prop :=
  calculate_turnover pos = inr (entry_turnover e) /\
  entry_returns e =
    adjust_returns_for_transaction_costs
      (weighted_returns (asset_returns sg) pos) (entry_turnover e)
      (transaction_cost_bps strategy) /\
  entry_trading_frequency e = sig_trading_frequency sg.

(** * Properties *)

(** ** Frequencies and the momentum window *)

Lemma freq_to_periods_cases f p :
  freq_to_periods !! f = Some p ->
  (f, p) ∈ [("D", 252); ("W", 52); ("2W", 26); ("M", 12)]%string.
Proof.
  unfold freq_to_periods. intros Hf.
  by apply elem_of_list_to_map_2 in Hf.
Qed.

Lemma freq_to_periods_outside f :
  f ∉ frequencies -> freq_to_periods !! f = None.
Proof.
  intros Hf. unfold freq_to_periods.
  apply not_elem_of_list_to_map_1. exact Hf.
Qed.

Lemma freq_map_outside f :
  f ∉ frequencies -> freq_map !! f = None.
Proof.
  intros Hf. unfold freq_map.
  apply not_elem_of_list_to_map_1. exact Hf.
Qed.

Lemma freq_map_cases f p :
  freq_map !! f = Some p ->
  (f, p) ∈ [("D", 252); ("W", 52); ("2W", 26); ("M", 12)]%string.
Proof.
  unfold freq_map. intros Hf.
  by apply elem_of_list_to_map_2 in Hf.
Qed.

Lemma freq_map_nonzero f p : freq_map !! f = Some p -> (p =? 0) = false.
Proof.
  intros Hf. apply freq_map_cases in Hf.
  repeat (apply elem_of_cons in Hf as [Hf | Hf]; [by inversion Hf |]).
  by apply elem_of_nil in Hf.
Qed.

(** The window size of the code: eleven twelfths of a year in periods,
    rounded down. *)
Lemma determine_window_size_value f p :
  freq_to_periods !! f = Some p ->
  _determine_window_size f = inr (11 * p / 12) /\ 2 <= 11 * p / 12.
Proof.
  intros Hf. apply freq_to_periods_cases in Hf.
  repeat (apply elem_of_cons in Hf as [Hf | Hf];
          [inversion Hf; subst; split; [by vm_compute | by vm_compute] |]).
  by apply elem_of_nil in Hf.
Qed.

Lemma determine_window_size_outside f :
  f ∉ frequencies ->
  _determine_window_size f = inl (ValueError "Invalid trading frequency.").
Proof.
  intros Hf. unfold _determine_window_size.
  by rewrite (freq_to_periods_outside f Hf).
Qed.

(** ** The trailing mean *)

Lemma shift1_cons x l : shift1 (x :: l) = NaN :: take (length l) (x :: l).
Proof.
  unfold shift1. f_equal.
  rewrite removelast_firstn_len. reflexivity.
Qed.

Lemma length_shift1 l : length (shift1 l) = length l.
Proof.
  destruct l as [|x l]; [done|].
  rewrite shift1_cons. cbn [length]. rewrite length_take. cbn [length]. lia.
Qed.

Lemma filter_isfinite_NaN l :
  List.filter isfinite (NaN :: l) = List.filter isfinite l.
Proof. reflexivity. Qed.

Lemma take_drop_take {A} (l : list A) a k m :
  (k + a <= m)%nat -> take a (drop k (take m l)) = take a (drop k l).
Proof.
  intros Hle.
  replace m with (k + (m - k))%nat by lia.
  rewrite <- take_drop_commute, take_take.
  f_equal. lia.
Qed.

(** The window of the shifted series at period [t] holds, besides a
    missing value, the returns of the periods before [t]. *)
Lemma window_shift1 w t col :
  (1 <= w)%nat -> (t < length col)%nat ->
  List.filter isfinite (window_values w t (shift1 col)) =
  List.filter isfinite (previous_periods w t col).
Proof.
  intros Hw Ht. destruct col as [|x l]; [cbn in Ht; lia|].
  rewrite shift1_cons. cbn [length] in Ht.
  unfold window_values, previous_periods.
  destruct (decide (t + 1 <= w)%nat) as [Hle | Hgt].
  - replace (t + 1 - w)%nat with 0%nat by lia.
    replace (t - w)%nat with 0%nat by lia.
    rewrite !drop_0, Nat.sub_0_r.
    replace (t + 1)%nat with (S t) by lia.
    rewrite firstn_cons, filter_isfinite_NaN, take_take.
    do 2 f_equal. lia.
  - replace (t + 1 - w)%nat with (S (t - w)) by lia.
    replace (t + 1 - S (t - w))%nat with w by lia.
    replace (t - (t - w))%nat with w by lia.
    rewrite skipn_cons, take_drop_take; [done | lia].
Qed.

Lemma rolling_mean_at_shift1 w t col :
  (1 <= w)%nat -> (t < length col)%nat ->
  rolling_mean_at w 1 (shift1 col) t = mean_of_finite (previous_periods w t col).
Proof.
  intros Hw Ht. unfold rolling_mean_at, mean_of_finite.
  rewrite (window_shift1 w t col Hw Ht).
  destruct (List.filter isfinite (previous_periods w t col)); reflexivity.
Qed.

Lemma previous_periods_take w t col :
  previous_periods w t (take t col) = previous_periods w t col.
Proof.
  unfold previous_periods. apply take_drop_take. lia.
Qed.

Lemma sector_return_momentum_eq f p col :
  freq_to_periods !! f = Some p ->
  sector_return_momentum f col =
  inr (map (rolling_mean_at (Z.to_nat (11 * p / 12 - 1)) 1 (shift1 col))
           (seq 0 (length col))).
Proof.
  intros Hf. unfold sector_return_momentum.
  destruct (determine_window_size_value f p Hf) as [-> Hw]. cbn [bind].
  unfold rolling_mean, rolling_validate.
  destruct (11 * p / 12 - 1 <? 0) eqn:E1; [lia|].
  destruct (11 * p / 12 - 1 <? 1) eqn:E2; [lia|].
  cbn [bind ret]. by rewrite length_shift1.
Qed.

Lemma sector_return_momentum_lookup f p col t :
  freq_to_periods !! f = Some p -> (t < length col)%nat ->
  exists scores,
    sector_return_momentum f col = inr scores /\
    length scores = length col /\
    scores !! t =
      Some (mean_of_finite (previous_periods (Z.to_nat (11 * p / 12 - 1)) t col)).
Proof.
  intros Hf Ht. eexists. split; [by apply sector_return_momentum_eq|].
  split; [by rewrite length_map, length_seq|].
  rewrite list_lookup_fmap, lookup_seq_lt by done. cbn.
  f_equal. apply rolling_mean_at_shift1; [|done].
  destruct (determine_window_size_value f p Hf) as [_ Hw]. lia.
Qed.

(** C1 (as the code has it).  For each of the four trading frequencies
    the momentum score of a sector at period [t] is the mean of the
    finite sector-average returns of the [w] periods before [t], where
    [w = floor((11/12) * periods_per_year) - 1] is at least 1; the score
    is missing when there is no such return, and it does not depend on
    the returns of period [t] or later.  The window is 10 periods for
    Monthly, 46 for Weekly, 22 for BiWeekly and 230 for Daily. *)
Theorem momentum_score_is_trailing_mean f p col :
  freq_to_periods !! f = Some p ->
  let w := Z.to_nat (11 * p / 12 - 1) in
  momentum_window f = inr (11 * p / 12 - 1) /\
  (1 <= w)%nat /\
  (exists scores,
     sector_return_momentum f col = inr scores /\
     length scores = length col /\
     (forall t, (t < length col)%nat ->
        scores !! t = Some (mean_of_finite (previous_periods w t col))) /\
     (forall col' t, (t < length col)%nat -> (t < length col')%nat ->
        take t col' = take t col ->
        exists scores',
          sector_return_momentum f col' = inr scores' /\ scores' !! t = scores !! t)) /\
  momentum_window "M" = inr 10 /\ momentum_window "W" = inr 46 /\
  momentum_window "2W" = inr 22 /\ momentum_window "D" = inr 230.
Proof.
  intros Hf w.
  destruct (determine_window_size_value f p Hf) as [Hws Hge].
  split; [unfold momentum_window; by rewrite Hws|].
  split; [subst w; lia|].
  split; [|by vm_compute].
  eexists. split; [by apply sector_return_momentum_eq|].
  split; [by rewrite length_map, length_seq|].
  assert (Hat : forall c t, (t < length c)%nat ->
            map (rolling_mean_at w 1 (shift1 c)) (seq 0 (length c)) !! t =
            Some (mean_of_finite (previous_periods w t c))).
  { intros c t Ht. rewrite list_lookup_fmap, lookup_seq_lt by done. cbn.
    f_equal. apply rolling_mean_at_shift1; [subst w; lia | done]. }
  split; [intros t Ht; by apply Hat|].
  intros col' t Ht Ht' Heq.
  eexists. split; [by apply sector_return_momentum_eq|].
  fold w. rewrite !Hat by done.
  by rewrite <- (previous_periods_take w t col'), Heq, previous_periods_take.
Qed.

Lemma momentum_score_is_trailing_mean_witness :
  freq_to_periods !! "M"%string = Some 12 /\
  momentum_window "M" = inr 10 /\
  exists scores,
    sector_return_momentum "M" [of_Z 1; of_Z 3; NaN; of_Z 5] = inr scores /\
    scores !! 3%nat = Some (of_Z 2).
Proof.
  split; [reflexivity|].
  destruct (momentum_score_is_trailing_mean "M" 12 [of_Z 1; of_Z 3; NaN; of_Z 5])
    as (Hw & _ & (scores & Hs & _ & Hat & _) & _); [reflexivity|].
  split; [exact Hw|].
  exists scores. split; [exact Hs|].
  rewrite (Hat 3%nat); [|cbn; lia].
  f_equal. compute_done.
Defined.

(** C1, the claim as stated fails: at the Weekly frequency the code rolls
    over 46 periods, the rounded formula of the claim gives 47. *)
Lemma momentum_window_weekly_is_not_rounded :
  freq_to_periods !! "W"%string = Some 52 /\
  momentum_window "W" = inr 46 /\
  spec_window_length 52 = 47 /\
  momentum_window "W" <> inr (spec_window_length 52).
Proof.
  split; [reflexivity|]. split; [by vm_compute|]. split; [reflexivity|].
  by vm_compute.
Qed.

(** ** The statistics record *)

Section StatisticsFacts.
Context `{NumericLib}.

Lemma calculate_statistics_value returns turnover f presence returns' turnover' p :
  filter_active returns turnover presence = inr (returns', turnover') ->
  freq_map !! upper f = Some p ->
  calculate_statistics returns turnover f presence =
  inr (<["Average Turnover (%)"%string := average_turnover turnover']>
       (<["Max Drawdown (%)"%string := nmul (max_drawdown returns'.*2) hundred]>
        (<["Skewness"%string := scipy_skew returns'.*2]>
         (<["Annualized Sharpe Ratio"%string := sharpe_ratio returns'.*2 p]>
          (<["Annualized Return (%)"%string :=
               nmul (annualized_return returns'.*2 p) hundred]> ∅))))).
Proof.
  intros Hfilter Hfreq. unfold calculate_statistics.
  rewrite Hfilter. cbn [bind]. rewrite Hfreq, (freq_map_nonzero _ _ Hfreq).
  cbn [bind ret]. by destruct turnover'.
Qed.

Lemma calculate_statistics_invalid returns turnover f presence :
  upper f ∉ frequencies ->
  (exists e, calculate_statistics returns turnover f presence = inl e) /\
  (forall rt, filter_active returns turnover presence = inr rt ->
     calculate_statistics returns turnover f presence =
     inl (ValueError "Invalid trading frequency.")).
Proof.
  intros Hf. unfold calculate_statistics.
  destruct (filter_active returns turnover presence) as [e | [r t]]; cbn [bind].
  - split; [by exists e | intros rt [=]].
  - rewrite (freq_map_outside _ Hf). cbn [bind raise]. split; [eauto | done].
Qed.

Lemma filter_active_no_turnover returns presence returns' turnover' :
  filter_active returns None presence = inr (returns', turnover') -> turnover' = None.
Proof.
  unfold filter_active. destruct presence as [p|]; [|by intros [= _ <-]].
  destruct (reindex p returns.*1) as [e | p1]; cbn [bind]; [done|].
  destruct (getitem_bool returns (active_periods p1)); cbn [bind]; [done|].
  by intros [= _ <-].
Qed.

End StatisticsFacts.

(** C7.  The momentum window and the statistics both read
    periods_per_year from the table Daily = 252, Weekly = 52,
    BiWeekly = 26, Monthly = 12 (the statistics after upper-casing the
    frequency); with a frequency of the table they produce a result
    computed from that number, and with any other frequency they raise
    the invalid-frequency error instead of a result. *)
Theorem frequency_table_or_error :
  (forall f p,
     (f, p) ∈ [("D", 252); ("W", 52); ("2W", 26); ("M", 12)]%string ->
     freq_to_periods !! f = Some p /\ freq_map !! f = Some p /\
     _determine_window_size f = inr (11 * p / 12)) /\
  (forall f, f ∉ frequencies ->
     freq_to_periods !! f = None /\
     _determine_window_size f = inl (ValueError "Invalid trading frequency.") /\
     forall col, sector_return_momentum f col =
                 inl (ValueError "Invalid trading frequency.")) /\
  (forall (lib : NumericLib) returns turnover f presence returns' turnover' p,
     filter_active returns turnover presence = inr (returns', turnover') ->
     freq_map !! upper f = Some p ->
     exists stats,
       calculate_statistics returns turnover f presence = inr stats /\
       stats !! "Annualized Return (%)"%string =
         Some (nmul (annualized_return returns'.*2 p) hundred)) /\
  (forall (lib : NumericLib) returns turnover f presence,
     upper f ∉ frequencies ->
     freq_map !! upper f = None /\
     (exists e, calculate_statistics returns turnover f presence = inl e) /\
     (forall rt, filter_active returns turnover presence = inr rt ->
        calculate_statistics returns turnover f presence =
        inl (ValueError "Invalid trading frequency."))).
Proof.
  split; [|split; [|split]].
  - intros f p Hin.
    assert (Hf : freq_to_periods !! f = Some p).
    { repeat (apply elem_of_cons in Hin as [Hin | Hin]; [by inversion Hin |]).
      by apply elem_of_nil in Hin. }
    split; [exact Hf|]. split; [exact Hf|].
    by destruct (determine_window_size_value f p Hf).
  - intros f Hf. split; [by apply freq_to_periods_outside|].
    split; [by apply determine_window_size_outside|].
    intros col. unfold sector_return_momentum.
    by rewrite determine_window_size_outside.
  - intros lib returns turnover f presence returns' turnover' p Hfilter Hfreq.
    eexists. split; [by eapply calculate_statistics_value|].
    do 4 (rewrite lookup_insert_ne by done). by rewrite lookup_insert_eq.
  - intros lib returns turnover f presence Hf.
    split; [by apply freq_map_outside|].
    by apply calculate_statistics_invalid.
Qed.

Lemma frequency_table_or_error_witness :
  _determine_window_size "W" = inr 47 /\
  _determine_window_size "Q" = inl (ValueError "Invalid trading frequency.") /\
  (exists stats,
     @calculate_statistics nan_lib [(1, of_Z 1)] None "m" None = inr stats) /\
  @calculate_statistics nan_lib [(1, of_Z 1)] None "Y" None =
    inl (ValueError "Invalid trading frequency.").
Proof.
  destruct frequency_table_or_error as (Hin & Hout & Hstat & Hbad).
  split.
  { destruct (Hin "W"%string 52) as (_ & _ & Hw); [|exact Hw].
    compute_done. }
  split.
  { destruct (Hout "Q"%string) as (_ & Hq & _); [|exact Hq].
    compute_done. }
  split.
  { destruct (Hstat nan_lib [(1, of_Z 1)] None "m"%string None [(1, of_Z 1)] None 12)
      as (stats & Hs & _); [reflexivity | reflexivity |].
    by exists stats. }
  destruct (Hbad nan_lib [(1, of_Z 1)] None "Y"%string None) as (_ & _ & Hy).
  { compute_done. }
  by apply (Hy ([(1, of_Z 1)], None)).
Defined.

(** C9.  Whenever the mask applies and the frequency is one of the table,
    [calculate_statistics] returns a record of five entries: the
    annualized return, the maximum drawdown and the average turnover
    multiplied by 100 under keys ending in "(%)", the Sharpe ratio and
    the skewness as computed; without a turnover series the
    average-turnover entry is not a number. *)
Theorem statistics_record_scaling (lib : NumericLib)
    returns turnover f presence returns' turnover' p :
  filter_active returns turnover presence = inr (returns', turnover') ->
  freq_map !! upper f = Some p ->
  exists stats,
    calculate_statistics returns turnover f presence = inr stats /\
    stats !! "Annualized Return (%)"%string =
      Some (nmul (annualized_return returns'.*2 p) (of_Z 100)) /\
    stats !! "Max Drawdown (%)"%string =
      Some (nmul (max_drawdown returns'.*2) (of_Z 100)) /\
    (forall u, turnover' = Some u ->
       stats !! "Average Turnover (%)"%string = Some (nmul (nanmean u.*2) (of_Z 100))) /\
    stats !! "Annualized Sharpe Ratio"%string = Some (sharpe_ratio returns'.*2 p) /\
    stats !! "Skewness"%string = Some (scipy_skew returns'.*2) /\
    (turnover = None -> stats !! "Average Turnover (%)"%string = Some NaN) /\
    dom stats = list_to_set ["Annualized Return (%)"; "Annualized Sharpe Ratio";
                             "Skewness"; "Max Drawdown (%)";
                             "Average Turnover (%)"]%string.
Proof.
  intros Hfilter Hfreq. eexists.
  split; [by eapply calculate_statistics_value|].
  split; [do 4 (rewrite lookup_insert_ne by done); by rewrite lookup_insert_eq|].
  split; [rewrite lookup_insert_ne by done; by rewrite lookup_insert_eq|].
  split; [intros u ->; by rewrite lookup_insert_eq|].
  split; [do 3 (rewrite lookup_insert_ne by done); by rewrite lookup_insert_eq|].
  split; [do 2 (rewrite lookup_insert_ne by done); by rewrite lookup_insert_eq|].
  split.
  - intros ->. apply filter_active_no_turnover in Hfilter as ->.
    by rewrite lookup_insert_eq.
  - rewrite !dom_insert_L, dom_empty_L. cbn [list_to_set foldr]. set_solver.
Qed.

Lemma statistics_record_scaling_witness :
  exists stats,
    @calculate_statistics nan_lib [(1, of_Z 1); (2, Fin (Q2Qc (-1 # 2)))] None "M" None = inr stats /\
    stats !! "Max Drawdown (%)"%string = Some (of_Z (-50)) /\
    stats !! "Average Turnover (%)"%string = Some NaN.
Proof.
  destruct (statistics_record_scaling nan_lib [(1, of_Z 1); (2, Fin (Q2Qc (-1 # 2)))] None
              "M"%string None [(1, of_Z 1); (2, Fin (Q2Qc (-1 # 2)))] None 12)
    as (stats & Hs & _ & Hdd & _ & _ & _ & Hnan & _); [reflexivity | reflexivity |].
  exists stats. split; [exact Hs|]. split; [|by apply Hnan].
  rewrite Hdd. f_equal. compute_done.
Defined.

(** ** The activity mask *)

Lemma loc_mask_map {A} (f : A -> bool) (l : list A) :
  loc_mask (map f l) l = List.filter f l.
Proof.
  induction l as [|x l IH]; [done|].
  cbn. rewrite IH. by destruct (f x).
Qed.

Lemma filter_filter_same {A} (f : A -> bool) (l : list A) :
  List.filter f (List.filter f l) = List.filter f l.
Proof.
  induction l as [|x l IH]; [done|].
  cbn. destruct (f x) eqn:E; [|done]. cbn. by rewrite E, IH.
Qed.

Lemma filter_filter_swap {A} (f g : A -> bool) (l : list A) :
  List.filter f (List.filter g l) = List.filter g (List.filter f l).
Proof.
  induction l as [|x l IH]; [done|].
  cbn. destruct (g x) eqn:Eg, (f x) eqn:Ef; cbn; rewrite ?Eg, ?Ef, IH; done.
Qed.

Lemma filter_label_index {A} (g : date -> bool) (s : list (date * A)) :
  (List.filter (fun x => g (fst x)) s).*1 = List.filter g s.*1.
Proof.
  induction s as [|[d v] s IH]; [done|].
  cbn. destruct (g d); cbn; by rewrite IH.
Qed.

Lemma label_mask_index g index : (label_mask g index).*1 = index.
Proof.
  unfold label_mask. induction index as [|d l IH]; [done|]. cbn. by rewrite IH.
Qed.

Lemma label_mask_values {A} g (s : list (date * A)) :
  (label_mask g s.*1).*2 = map (fun x => g (fst x)) s.
Proof.
  unfold label_mask. induction s as [|[d v] s IH]; [done|]. cbn. by rewrite IH.
Qed.

Lemma occurrences_label_mask g d index :
  List.filter (fun m => Z.eqb (fst m) d) (label_mask g index) =
  label_mask g (occurrences d index).
Proof.
  unfold label_mask, occurrences. induction index as [|d' l IH]; [done|].
  cbn. destruct (d' =? d); cbn; by rewrite IH.
Qed.

Lemma occurrences_eq d index d' : d' ∈ occurrences d index -> d' = d.
Proof.
  unfold occurrences. rewrite list_elem_of_In, filter_In.
  intros [_ Heq]. by apply Z.eqb_eq.
Qed.

Lemma align_mask_length index mask key :
  align_mask index mask = inr key -> (length index <= length key)%nat.
Proof.
  revert key. induction index as [|d l IH]; intros key; cbn.
  - intros [= <-]. done.
  - destruct (List.filter (fun m => fst m =? d) mask) as [|m found]; [done|].
    destruct (align_mask l mask) as [e | rest]; cbn; [done|].
    intros [= <-]. specialize (IH rest eq_refl).
    cbn. rewrite length_app. lia.
Qed.

(** A mask brought to an index of the same length reads each label once. *)
Lemma align_mask_exact g index target key :
  align_mask index (label_mask g target) = inr key ->
  length key = length index ->
  key = map g index /\
  Forall (fun d => length (occurrences d target) = 1%nat) index.
Proof.
  revert key. induction index as [|d l IH]; intros key; cbn.
  - intros [= <-]. done.
  - rewrite occurrences_label_mask.
    destruct (occurrences d target) as [|d0 occ] eqn:Eocc; [done|].
    cbn. destruct (align_mask l (label_mask g target)) as [e | rest] eqn:Erest;
      cbn; [done|].
    intros [= <-]. cbn. rewrite length_app, length_fmap. intros Hlen.
    pose proof (align_mask_length _ _ _ Erest) as Hge.
    unfold label_mask in Hlen. rewrite length_map in Hlen.
    destruct occ as [|d1 occ]; [|cbn in Hlen; lia].
    cbn in Hlen. destruct (IH rest eq_refl) as [-> Hall]; [lia|].
    assert (d0 = d) as ->.
    { apply (occurrences_eq d target). rewrite Eocc. by left. }
    split; [done|]. constructor; [by rewrite Eocc | done].
Qed.

Lemma align_mask_once g index target :
  Forall (fun d => length (occurrences d target) = 1%nat) index ->
  align_mask index (label_mask g target) = inr (map g index).
Proof.
  induction 1 as [|d l Hd _ IH]; [done|].
  cbn. rewrite occurrences_label_mask, IH.
  destruct (occurrences d target) as [|d0 [|d1 occ]] eqn:Eocc; cbn in Hd; try lia.
  assert (d0 = d) as ->.
  { apply (occurrences_eq d target). rewrite Eocc. by left. }
  done.
Qed.

(** Selecting with a mask that depends on the label keeps the entries
    whose label is active. *)
Lemma getitem_bool_label g (s : series) target :
  alignable s.*1 target ->
  getitem_bool s (label_mask g target) = inr (List.filter (fun x => g (fst x)) s).
Proof.
  intros Halign. unfold getitem_bool. rewrite label_mask_index.
  case_bool_decide as Heq.
  - rewrite <- Heq, label_mask_values, loc_mask_map. done.
  - destruct Halign as [? | Hall]; [done|].
    rewrite (align_mask_once g _ _ Hall). cbn [bind].
    rewrite length_map, length_fmap, bool_decide_eq_true_2 by done.
    replace (map g s.*1) with (map (fun x => g (fst x)) s).
    + by rewrite loc_mask_map.
    + clear. induction s as [|[d v] s IH]; [done|]. cbn. by rewrite IH.
Qed.

Lemma getitem_bool_inv g (s s' : series) target :
  getitem_bool s (label_mask g target) = inr s' ->
  alignable s.*1 target /\ s' = List.filter (fun x => g (fst x)) s.
Proof.
  intros Hget.
  assert (Halign : alignable s.*1 target).
  { revert Hget. unfold getitem_bool. rewrite label_mask_index.
    case_bool_decide as Heq; [by left|].
    destruct (align_mask s.*1 (label_mask g target)) as [e | key] eqn:Ekey;
      cbn [bind]; [done|].
    case_bool_decide as Hlen; [|done]. intros _. right.
    eapply align_mask_exact; [exact Ekey|]. by rewrite length_fmap. }
  split; [done|].
  rewrite (getitem_bool_label g s target Halign) in Hget. by inversion Hget.
Qed.

Lemma alignable_filter g index target :
  alignable index target -> alignable (List.filter g index) (List.filter g target).
Proof.
  intros [-> | Hall]; [by left | right].
  apply Forall_forall. intros d Hd.
  apply list_elem_of_In, filter_In in Hd as [Hd Hg].
  rewrite Forall_forall in Hall. specialize (Hall d (proj2 (list_elem_of_In _ _) Hd)).
  unfold occurrences in *. rewrite filter_filter_swap.
  destruct (List.filter (fun d' => d' =? d) target) as [|d0 [|d1 occ]] eqn:Eocc;
    cbn in Hall; try lia.
  assert (d0 = d) as ->.
  { apply (occurrences_eq d target). unfold occurrences. rewrite Eocc. by left. }
  cbn. by rewrite Hg.
Qed.

Lemma lookup_label_NoDup {A} (rows : list (date * A)) d v :
  NoDup rows.*1 -> (d, v) ∈ rows -> lookup_label d rows = Some v.
Proof.
  unfold lookup_label. induction rows as [|[d' v'] rows IH]; cbn.
  - intros _ Hin. by apply elem_of_nil in Hin.
  - intros Hnd Hin. apply NoDup_cons in Hnd as [Hnotin Hnd].
    apply elem_of_cons in Hin as [[= <- <-] | Hin].
    + by rewrite Z.eqb_refl.
    + destruct (d' =? d) eqn:E; [|by apply IH].
      apply Z.eqb_eq in E as ->. exfalso. apply Hnotin.
      apply list_elem_of_fmap. by exists (d, v).
Qed.

(** After [reindex] the mask depends on the label only. *)
Lemma active_periods_reindex p index p1 :
  NoDup (presence_index p) ->
  reindex p index = inr p1 ->
  active_periods p1 = label_mask (active_at p) index.
Proof.
  intros Hnd. unfold reindex. case_bool_decide as Heq.
  - intros [= <-]. subst index. unfold label_mask.
    destruct p as [n rows | s]; cbn in *.
    + rewrite map_map. apply map_ext_in. intros [d v] Hin. cbn.
      by rewrite (lookup_label_NoDup rows d v Hnd (proj2 (list_elem_of_In _ _) Hin)).
    + rewrite map_map. apply map_ext_in. intros [d v] Hin. cbn.
      by rewrite (lookup_label_NoDup s d v Hnd (proj2 (list_elem_of_In _ _) Hin)).
  - rewrite bool_decide_eq_true_2 by done. intros [= <-].
    unfold label_mask. destruct p as [n rows | s]; cbn; by rewrite map_map.
Qed.

Lemma reindex_NoDup p index :
  NoDup (presence_index p) -> exists p1, reindex p index = inr p1.
Proof.
  intros Hnd. unfold reindex. case_bool_decide; [by eexists|].
  rewrite bool_decide_eq_true_2 by done. by eexists.
Qed.

(** What the mask keeps, when it applies. *)
Lemma filter_active_inv returns turnover p returns' turnover' :
  NoDup (presence_index p) ->
  filter_active returns turnover (Some p) = inr (returns', turnover') ->
  returns' = List.filter (fun x => active_at p (fst x)) returns /\
  match turnover with
  | None => turnover' = None
  | Some t =>
      alignable t.*1 returns.*1 /\
      turnover' = Some (List.filter (fun x => active_at p (fst x)) t)
  end.
Proof.
  intros Hnd. unfold filter_active.
  destruct (reindex p returns.*1) as [e | p1] eqn:Ep1; cbn [bind]; [done|].
  rewrite (active_periods_reindex _ _ _ Hnd Ep1).
  rewrite (getitem_bool_label _ returns returns.*1) by by left. cbn [bind].
  destruct turnover as [t|]; [|by intros [= <- <-]].
  destruct (getitem_bool t _) as [e | t'] eqn:Et; cbn [bind]; [done|].
  intros [= <- <-]. apply getitem_bool_inv in Et as [Halign ->]. done.
Qed.

Lemma filter_active_filtered returns turnover p :
  NoDup (presence_index p) ->
  match turnover with None => True | Some t => alignable t.*1 returns.*1 end ->
  let keep := fun x : date * number => active_at p (fst x) in
  filter_active (List.filter keep returns) (List.filter keep <$> turnover) (Some p) =
  inr (List.filter keep returns, List.filter keep <$> turnover).
Proof.
  intros Hnd Halign keep. unfold filter_active.
  destruct (reindex_NoDup p (List.filter keep returns).*1 Hnd) as [p1 Ep1].
  rewrite Ep1. cbn [bind].
  rewrite (active_periods_reindex _ _ _ Hnd Ep1).
  rewrite (getitem_bool_label _ (List.filter keep returns)) by by left. cbn [bind].
  fold keep. rewrite filter_filter_same.
  destruct turnover as [t|]; [|done]. cbn [fmap option_fmap option_map].
  rewrite (getitem_bool_label _ (List.filter keep t)).
  - cbn [bind]. fold keep. by rewrite filter_filter_same.
  - unfold keep. rewrite !filter_label_index. by apply alignable_filter.
Qed.

(** C8.  The activity mask is idempotent: when the presence carries no
    duplicate timestamp and the mask applies to a return series (and an
    optional turnover series), applying the same mask to the filtered
    series changes nothing, so the statistics of the filtered series
    under the mask are those of the original series under the mask, and
    also those of the filtered series without a mask. *)
Theorem activity_mask_idempotent (lib : NumericLib)
    returns turnover f p returns' turnover' :
  NoDup (presence_index p) ->
  filter_active returns turnover (Some p) = inr (returns', turnover') ->
  filter_active returns' turnover' (Some p) = inr (returns', turnover') /\
  calculate_statistics returns' turnover' f (Some p) =
    calculate_statistics returns turnover f (Some p) /\
  calculate_statistics returns' turnover' f None =
    calculate_statistics returns turnover f (Some p).
Proof.
  intros Hnd Hfilter.
  assert (Hagain : filter_active returns' turnover' (Some p) = inr (returns', turnover')).
  { destruct (filter_active_inv _ _ _ _ _ Hnd Hfilter) as [-> Ht].
    destruct turnover as [t|].
    - destruct Ht as [Halign ->].
      by apply (filter_active_filtered returns (Some t) p).
    - subst turnover'. by apply (filter_active_filtered returns None p). }
  split; [exact Hagain|].
  unfold calculate_statistics. rewrite Hagain, Hfilter. done.
Qed.

Lemma activity_mask_idempotent_witness :
  let p := PresenceFrame 2 [(1, [of_Z 1; of_Z 0]); (2, [of_Z 0; of_Z 0]); (3, [NaN; of_Z 1])] in
  let returns := [(1, of_Z 1); (2, of_Z 2); (3, of_Z 3); (4, of_Z 4)] in
  let turnover := Some [(3, of_Z 30); (1, of_Z 10)] in
  filter_active returns turnover (Some p) =
    inr ([(1, of_Z 1); (3, of_Z 3)], Some [(3, of_Z 30); (1, of_Z 10)]) /\
  @calculate_statistics nan_lib [(1, of_Z 1); (3, of_Z 3)]
     (Some [(3, of_Z 30); (1, of_Z 10)]) "M" (Some p) =
  @calculate_statistics nan_lib returns turnover "M" (Some p).
Proof.
  intros p returns turnover.
  assert (Hfilter : filter_active returns turnover (Some p) =
            inr ([(1, of_Z 1); (3, of_Z 3)], Some [(3, of_Z 30); (1, of_Z 10)])).
  { by vm_compute. }
  split; [exact Hfilter|].
  refine (proj1 (proj2 (activity_mask_idempotent nan_lib returns turnover "M"%string p
                          _ _ _ Hfilter))).
  subst p. cbn. compute_done.
Defined.

(** With a duplicated timestamp in the presence the second pass is
    refused: the hypothesis of the theorem cannot be dropped. *)
Remark activity_mask_duplicate_timestamp :
  let p := PresenceSeries [(1, of_Z 1); (1, of_Z 0)] in
  let returns := [(1, of_Z 5); (1, of_Z 7)] in
  filter_active returns None (Some p) = inr ([(1, of_Z 5)], None) /\
  filter_active [(1, of_Z 5)] None (Some p) =
    inl (ValueError "cannot reindex on an axis with duplicate labels").
Proof. split; by vm_compute. Qed.

(** ** Arithmetic of [number] *)

Lemma nsub_zero r : nsub r zero = r.
Proof.
  destruct r as [a| | |]; try reflexivity.
  unfold nsub, nneg, zero, nadd. f_equal.
  replace (- 0)%Qc with 0%Qc by (by apply Qc_is_canon).
  apply Qcplus_0_r.
Qed.



Lemma nadd_finite x y : isfinite x = true -> isfinite y = true -> isfinite (nadd x y) = true.
Proof. by destruct x, y. Qed.



Lemma dropna_notna l : Forall (fun x => x <> NaN) l -> dropna l = l.
Proof.
  induction 1 as [|x l Hx _ IH]; [done|].
  unfold dropna in *. cbn. rewrite IH. by destruct x.
Qed.

Lemma nansum_total l : Forall (fun x => x <> NaN) l -> nansum l = total l.
Proof. intros Hl. unfold nansum, total. by rewrite dropna_notna. Qed.

Lemma finite_notna l :
  Forall (fun x => isfinite x = true) l -> Forall (fun x => x <> NaN) l.
Proof. intros Hl. eapply Forall_impl; [exact Hl|]. by intros []. Qed.

Lemma total_finite l :
  Forall (fun x => isfinite x = true) l -> isfinite (total l) = true.
Proof.
  induction 1 as [|x l Hx _ IH]; [done|]. cbn. by apply nadd_finite.
Qed.



(** ** Turnover *)

Lemma calculate_turnover_cons r0 rest :
  calculate_turnover (r0 :: rest) =
  inr (abs_sum r0 :: map abs_sum (zip_with (zip_with nsub) rest (r0 :: rest))).
Proof. reflexivity. Qed.


(** C2.  For a position matrix of at least one row [calculate_turnover]
    returns one value per row: the sum of the absolute values of row 0,
    and for every later row the sum of the absolute differences to the
    row before it (pandas' sum, which is the plain sum when no value is
    missing); for [[1,0],[0,1],[0,1]] it returns [1, 2, 0]. *)
Theorem turnover_of_positions positions :
  positions <> [] ->
  exists turnover,
    calculate_turnover positions = inr turnover /\
    length turnover = length positions /\
    (forall r0, positions !! 0%nat = Some r0 -> turnover !! 0%nat = Some (abs_sum r0)) /\
    (forall t prev row,
       positions !! t = Some prev -> positions !! S t = Some row ->
       turnover !! S t = Some (abs_sum (zip_with nsub row prev))) /\
    (forall row, Forall (fun x => x <> NaN) row -> abs_sum row = total (map nabs row)) /\
    calculate_turnover [[of_Z 1; of_Z 0]; [of_Z 0; of_Z 1]; [of_Z 0; of_Z 1]] =
      inr [of_Z 1; of_Z 2; of_Z 0].
Proof.
  intros Hne. destruct positions as [|r0 rest]; [done|].
  eexists. split; [apply calculate_turnover_cons|].
  split.
  { cbn. rewrite length_map, length_zip_with. cbn. f_equal. lia. }
  split; [by intros ? [= ->]|].
  split.
  { intros t prev row Hprev Hrow. cbn in Hrow. cbn [lookup list_lookup].
    change (map abs_sum (zip_with (zip_with nsub) rest (r0 :: rest)) !! t =
            Some (abs_sum (zip_with nsub row prev))).
    rewrite list_lookup_fmap, lookup_zip_with.
    change (rest !! t = Some row) in Hrow. by rewrite Hrow, Hprev. }
  split; [|compute_done].
  intros row Hrow. unfold abs_sum. apply nansum_total.
  apply Forall_fmap. eapply Forall_impl; [exact Hrow|]. by intros [].
Qed.

Lemma turnover_of_positions_witness :
  exists turnover,
    calculate_turnover [[of_Z 1; of_Z (-1)]; [of_Z 0; of_Z 1]] = inr turnover /\
    turnover !! 1%nat = Some (of_Z 3).
Proof.
  destruct (turnover_of_positions [[of_Z 1; of_Z (-1)]; [of_Z 0; of_Z 1]])
    as (turnover & Ht & _ & _ & Hrow & _); [discriminate|].
  exists turnover. split; [exact Ht|].
  rewrite (Hrow 0%nat [of_Z 1; of_Z (-1)] [of_Z 0; of_Z 1]); [|reflexivity..].
  apply (f_equal Some). compute_done.
Defined.

(** ** Transaction costs *)

Lemma adjust_lookup returns turnover bps t r u :
  returns !! t = Some r -> turnover !! t = Some u ->
  adjust_returns_for_transaction_costs returns turnover bps !! t =
  Some (nsub r (nmul u (ndiv bps (of_Z 10000)))).
Proof.
  intros Hr Hu. unfold adjust_returns_for_transaction_costs.
  by rewrite lookup_zip_with, Hr, list_lookup_fmap, Hu.
Qed.


Lemma all_legs_entries strategy s positions_dict data key e :
  all_legs strategy s positions_dict = inr data ->
  (key, e) ∈ data ->
  exists leg_name positions,
    (leg_name, positions) ∈ positions_dict /\
    key = leg_key (name strategy) leg_name /\
    leg_entry strategy s positions = inr e.
Proof.
  revert data. induction positions_dict as [|[leg positions] rest IH]; intros data; cbn.
  - intros [= <-] Hin. by apply elem_of_nil in Hin.
  - destruct (leg_entry strategy s positions) as [err | e0] eqn:Ee0; cbn [bind]; [done|].
    destruct (all_legs strategy s rest) as [err | es]; cbn [bind]; [done|].
    intros [= <-] Hin. apply elem_of_cons in Hin as [[= -> ->] | Hin].
    + exists leg, positions. split; [by left | done].
    + destruct (IH es eq_refl Hin) as (leg' & positions' & Hin' & Hkey & He).
      exists leg', positions'. split; [by right | done].
Qed.

(** Every entry the orchestrator inserts for a strategy is the entry of
    one leg, under the key "<strategy name> - <leg name>". *)
Lemma calculate_strategy_returns_entries strategy s data key e :
  calculate_strategy_returns strategy s = inr data ->
  (key, e) ∈ data ->
  exists leg_name positions,
    key = leg_key (name strategy) leg_name /\
    leg_entry strategy s positions = inr e.
Proof.
  unfold calculate_strategy_returns.
  destruct (String.eqb (strategy_legs strategy) "ALL"), (positions s) as [m | d];
    try done.
  - intros Hdata Hin.
    destruct (all_legs_entries _ _ _ _ _ _ Hdata Hin) as (leg & pos & _ & Hkey & He).
    by exists leg, pos.
  - destruct (leg_entry strategy s m) as [err | e0] eqn:Ee0; cbn [bind]; [done|].
    destruct (leg_names !! strategy_legs strategy) as [leg|]; [|done].
    intros [= <-] Hin. apply list_elem_of_singleton in Hin as [= -> ->].
    by exists leg, m.
Qed.

(** ** The results collection *)

Lemma prefix_refl_app sep s : String.prefix sep (String.append sep s) = true.
Proof.
  induction sep as [|c sep IH].
  - change (String.prefix "" s = true). by destruct s.
  - change (String.prefix (String c sep) (String c (String.append sep s)) = true).
    cbn [String.prefix]. by destruct (ascii_dec c c).
Qed.

Lemma contains_app sep a b :
  contains sep (String.append a (String.append sep b)) = true.
Proof.
  induction a as [|c a IH].
  - change (contains sep (String.append sep b) = true).
    pose proof (prefix_refl_app sep b) as Hp.
    destruct (String.append sep b); cbn [contains]; by rewrite Hp.
  - change (contains sep (String c (String.append a (String.append sep b))) = true).
    cbn [contains]. rewrite IH. apply orb_true_r.
Qed.

Lemma leg_key_contains_separator strategy_name leg_name :
  contains " - " (leg_key strategy_name leg_name) = true.
Proof. apply contains_app. Qed.

Lemma leg_key_not_benchmark strategy_name leg_name :
  leg_key strategy_name leg_name <> "Benchmark"%string.
Proof.
  intros Heq. pose proof (leg_key_contains_separator strategy_name leg_name) as Hc.
  rewrite Heq in Hc. discriminate Hc.
Qed.

Lemma update_lookup_other d items key :
  Forall (fun kv => fst kv <> key) items ->
  update d items !! key = d !! key.
Proof.
  unfold update. intros Hitems. revert d.
  induction Hitems as [|[k e] items Hk _ IH]; intros d; [done|].
  cbn [foldl]. rewrite IH. cbn in *. by rewrite lookup_insert_ne.
Qed.

Lemma run_strategies_benchmark d strategies d' :
  run_strategies d strategies = inr d' ->
  d' !! "Benchmark"%string = d !! "Benchmark"%string.
Proof.
  revert d. induction strategies as [|strategy rest IH]; intros d; cbn.
  - by intros [= <-].
  - destruct (signals strategy) as [e | s]; cbn [bind]; [done|].
    destruct (calculate_strategy_returns strategy s) as [e | data] eqn:Edata;
      cbn [bind]; [done|].
    intros Hrun. rewrite (IH _ Hrun). apply update_lookup_other.
    apply Forall_forall. intros [key e] Hin. cbn.
    destruct (calculate_strategy_returns_entries _ _ _ _ _ Edata Hin)
      as (leg & _ & -> & _).
    apply leg_key_not_benchmark.
Qed.

(** C10.  When [run_backtest] completes, the results hold the benchmark's
    entry under the key "Benchmark": every key a strategy leg is inserted
    under is "<strategy name> - <leg name>", which contains " - " and so
    is never "Benchmark". *)
Theorem benchmark_entry_is_kept returns_dict benchmark strategies results :
  run_backtest returns_dict benchmark strategies = inr results ->
  results !! "Benchmark"%string = Some benchmark /\
  contains " - " "Benchmark" = false /\
  (forall strategy s data key e,
     calculate_strategy_returns strategy s = inr data ->
     (key, e) ∈ data ->
     (exists leg_name, key = (name strategy ++ " - " ++ leg_name)%string) /\
     contains " - " key = true /\
     key <> "Benchmark"%string).
Proof.
  intros Hrun. unfold run_backtest in Hrun.
  split; [by rewrite (run_strategies_benchmark _ _ _ Hrun), lookup_insert_eq|].
  split; [reflexivity|].
  intros strategy s data key e Hdata Hin.
  destruct (calculate_strategy_returns_entries _ _ _ _ _ Hdata Hin)
    as (leg & _ & -> & _).
  split; [by exists leg|].
  split; [apply leg_key_contains_separator | apply leg_key_not_benchmark].
Qed.

Lemma benchmark_entry_is_kept_witness :
  let benchmark := {| entry_returns := [of_Z 1]; entry_turnover := [of_Z 0];
                      entry_trading_frequency := "M" |} in
  let p := {| num_sectors := 1; trading_frequency := "M"; start_date := 0;
              end_date := None; invert_long := false; invert_short := false;
              legs := "ALL" |} in
  let strategy :=
    momentum_strategy p (of_Z 10) 3
      [[of_Z 1; of_Z 2; of_Z 3]; [of_Z 3; of_Z 2; of_Z 1]] in
  exists results,
    run_backtest ∅ benchmark [strategy] = inr results /\
    results !! "Benchmark"%string = Some benchmark /\
    is_Some (results !! "Momentum Sector Long-Short Strategy - Combined"%string).
Proof.
  intros benchmark p strategy.
  destruct (run_backtest ∅ benchmark [strategy]) as [e | results] eqn:Erun.
  - exfalso. vm_compute in Erun. discriminate Erun.
  - exists results. split; [reflexivity|].
    split; [exact (proj1 (benchmark_entry_is_kept _ _ _ _ Erun))|].
    vm_compute in Erun. injection Erun as <-. vm_compute. eexists. reflexivity.
Defined.

(** ** The date range *)

Lemma loc_mask_all_false {A} (l : list A) n : loc_mask (replicate n false) l = [].
Proof.
  revert l. induction n as [|n IH]; intros [|x l]; cbn; auto.
Qed.

Lemma date_mask_reversed start e index :
  e < start -> date_mask start (Some e) index = replicate (length index) false.
Proof.
  intros Hlt. unfold date_mask. induction index as [|d index IH]; [done|].
  cbn. rewrite IH. f_equal. lia.
Qed.

(** C6 (as the code has it).  The dates of a configuration are not
    validated: [set_parameters] checks the leg code only, so with a valid
    leg code it returns the configuration whatever the order of the start
    and the end date; when the end date is strictly before the start date
    the date filter of the strategy and of the benchmark selects no
    period. *)
Theorem date_range_is_not_validated :
  (forall kwargs,
     upper (default "ALL"%string (kw_legs kwargs)) ∈ valid_legs ->
     exists p,
       set_parameters kwargs = inr p /\
       start_date p = default default_start_date (kw_start_date kwargs) /\
       end_date p = kw_end_date kwargs) /\
  (forall kwargs,
     upper (default "ALL"%string (kw_legs kwargs)) ∉ valid_legs ->
     set_parameters kwargs = inl (ValueError "Invalid legs parameter.")) /\
  (forall (start e : date) (index : list date) (rows : matrix),
     e < start ->
     date_mask start (Some e) index = replicate (length index) false /\
     loc_mask (date_mask start (Some e) index) rows = []).
Proof.
  split; [|split].
  - intros kwargs Hlegs. unfold set_parameters. cbn [legs].
    rewrite bool_decide_eq_true_2 by done. by eexists.
  - intros kwargs Hlegs. unfold set_parameters. cbn [legs].
    by rewrite bool_decide_eq_false_2.
  - intros start e index rows Hlt.
    rewrite (date_mask_reversed start e index Hlt).
    split; [done | apply loc_mask_all_false].
Qed.

Lemma date_range_is_not_validated_witness :
  let kwargs := {| kw_num_sectors := Some 5; kw_trading_frequency := Some "M"%string;
                   kw_start_date := Some 18263; kw_end_date := Some 18262;
                   kw_invert_long := None; kw_invert_short := None;
                   kw_legs := Some "ls"%string |} in
  (exists p, set_parameters kwargs = inr p /\
             start_date p = 18263 /\ end_date p = Some 18262) /\
  loc_mask (date_mask 18263 (Some 18262) [18200; 18262; 18263; 18300])
           [[of_Z 1]; [of_Z 2]; [of_Z 3]; [of_Z 4]] = [].
Proof.
  intros kwargs.
  destruct date_range_is_not_validated as (Hok & _ & Hmask).
  split.
  - apply (Hok kwargs). compute_done.
  - apply (Hmask 18263 18262). reflexivity.
Defined.

(** C6, the claim as stated fails: a configuration whose end date
    (2020-01-01) is the day before its start date (2020-01-02) is
    accepted without an error. *)
Lemma reversed_date_range_is_accepted :
  set_parameters {| kw_num_sectors := None; kw_trading_frequency := None;
                    kw_start_date := Some 18263; kw_end_date := Some 18262;
                    kw_invert_long := None; kw_invert_short := None;
                    kw_legs := None |} =
  inr {| num_sectors := 5; trading_frequency := "M"; start_date := 18263;
         end_date := Some 18262; invert_long := false; invert_short := false;
         legs := "ALL" |}.
Proof. reflexivity. Qed.

(** On the empty frames a reversed date range leaves, the failure comes
    later and is an index error of the turnover computation. *)
Remark empty_frames_raise_index_error :
  calculate_turnover [] = inl IndexError /\ benchmark_raw [] [] = inl IndexError.
Proof. split; reflexivity. Qed.

(** ** Equal weights within a side *)

Lemma one_ne_zero : one <> zero.
Proof. compute_done. Qed.

Lemma Qc_of_nat_S c : Qc_of_nat (S c) = (1 + Qc_of_nat c)%Qc.
Proof.
  unfold Qc_of_nat. apply Qc_is_canon.
  unfold Qcplus, Q2Qc. cbn [this]. rewrite !Qred_correct.
  rewrite Nat2Z.inj_succ. unfold Z.succ. rewrite inject_Z_plus. ring.
Qed.

Lemma Qc_of_nat_pos c : (0 < c)%nat -> (0 < Qc_of_nat c)%Qc.
Proof.
  intros Hc. unfold Qc_of_nat, Qclt, Q2Qc. cbn [this]. rewrite !Qred_correct.
  change 0%Q with (inject_Z 0). rewrite <- Zlt_Qlt. lia.
Qed.

Lemma Qc_of_nat_compare c : (0 < c)%nat -> (Qc_of_nat c ?= 0)%Qc = Gt.
Proof. intros Hc. apply Qcgt_alt. by apply Qc_of_nat_pos. Qed.

Lemma Qc_of_nat_nonzero c : (0 < c)%nat -> Qc_of_nat c <> 0%Qc.
Proof.
  intros Hc Heq. pose proof (Qc_of_nat_pos c Hc) as Hpos.
  rewrite Heq in Hpos. by apply Qclt_not_eq in Hpos.
Qed.

Lemma binary_row_notna row : binary_row row -> Forall (fun x => x <> NaN) row.
Proof.
  intros Hrow. eapply Forall_impl; [exact Hrow|]. by intros x [-> | ->].
Qed.

Lemma is_one_zero : is_one zero = false.
Proof. compute_done. Qed.

Lemma is_one_one : is_one one = true.
Proof. compute_done. Qed.

(** The row sum of a presence row is the number of its ones. *)
Lemma nansum_binary row :
  binary_row row -> nansum row = Fin (Qc_of_nat (count_ones row)).
Proof.
  intros Hrow. rewrite nansum_total by by apply binary_row_notna.
  unfold total, count_ones. induction Hrow as [|e row He _ IH].
  - cbn. unfold zero. apply (f_equal Fin). by apply Qc_is_canon.
  - cbn [foldr List.filter]. rewrite IH. destruct He as [-> | ->].
    + rewrite is_one_zero. unfold zero, nadd. f_equal. apply Qcplus_0_l.
    + rewrite is_one_one. cbn [length]. by rewrite Qc_of_nat_S.
Qed.

Lemma count_ones_zero row :
  binary_row row -> count_ones row = 0%nat -> row = replicate (length row) zero.
Proof.
  unfold count_ones. induction 1 as [|e row He _ IH]; [done|].
  destruct He as [-> | ->]; cbn [List.filter].
  - rewrite is_one_zero. intros Hc. cbn. f_equal. by apply IH.
  - rewrite is_one_one. done.
Qed.

(** The weight of one cell of a presence row with [n > 0] ones. *)
Lemma weight_of_cell n e :
  (0 < n)%nat -> e = zero \/ e = one ->
  fillna zero (ndiv e (Fin (Qc_of_nat n))) =
  if is_one e then Fin (1 / Qc_of_nat n)%Qc else zero.
Proof.
  intros Hn [-> | ->].
  - rewrite is_one_zero. unfold zero at 2, ndiv.
    rewrite (Qc_of_nat_compare n Hn). cbn. unfold zero. f_equal.
    unfold Qcdiv. apply Qcmult_0_l.
  - rewrite is_one_one. unfold one, ndiv. by rewrite (Qc_of_nat_compare n Hn).
Qed.

Lemma equal_weights_cells row :
  binary_row row -> (0 < count_ones row)%nat ->
  equal_weights row =
  map (fun e => if is_one e then Fin (1 / Qc_of_nat (count_ones row))%Qc else zero) row.
Proof.
  intros Hrow Hn. unfold equal_weights. rewrite (nansum_binary row Hrow).
  apply map_ext_in. intros e He. apply weight_of_cell; [done|].
  unfold binary_row in Hrow. rewrite Forall_forall in Hrow.
  apply Hrow. by apply list_elem_of_In.
Qed.

Lemma equal_weights_none row :
  binary_row row -> count_ones row = 0%nat ->
  equal_weights row = replicate (length row) zero.
Proof.
  intros Hrow Hc. unfold equal_weights.
  rewrite (nansum_binary row Hrow), Hc.
  rewrite (count_ones_zero row Hrow Hc) at 1 2.
  generalize (length row). intros n. induction n as [|n IH]; [done|].
  cbn [replicate map]. rewrite IH. f_equal.
Qed.

(** The sum of a row that gives [q] to every selected cell. *)
Lemma total_of_cells row q :
  total (map (fun e => if is_one e then Fin q else zero) row) =
  Fin (Qc_of_nat (count_ones row) * q)%Qc.
Proof.
  unfold total, count_ones. induction row as [|e row IH].
  - cbn. unfold zero. f_equal. symmetry. apply Qcmult_0_l.
  - cbn [map foldr List.filter]. rewrite IH. destruct (is_one e).
    + cbn [length nadd]. rewrite Qc_of_nat_S. f_equal. ring.
    + unfold zero, nadd. f_equal. apply Qcplus_0_l.
Qed.

Lemma cells_notna row q :
  Forall (fun x => x <> NaN) (map (fun e => if is_one e then Fin q else zero) row).
Proof.
  apply Forall_fmap, Forall_forall. intros e _. cbn. by destruct (is_one e).
Qed.

Lemma nneg_cells row q :
  map nneg (map (fun e => if is_one e then Fin q else zero) row) =
  map (fun e => if is_one e then Fin (- q)%Qc else zero) row.
Proof.
  rewrite map_map. apply map_ext. intros e. by destruct (is_one e).
Qed.

Lemma nneg_replicate_zero n : map nneg (replicate n zero) = replicate n zero.
Proof.
  induction n as [|n IH]; [done|]. cbn [replicate map]. by rewrite IH.
Qed.

Lemma long_row_sum row :
  binary_row row -> (0 < count_ones row)%nat -> nansum (long_row false row) = one.
Proof.
  intros Hrow Hn. unfold long_row. rewrite (equal_weights_cells row Hrow Hn).
  rewrite nansum_total by apply cells_notna. rewrite total_of_cells.
  unfold one. apply (f_equal Fin). unfold Qcdiv. rewrite Qcmult_1_l.
  apply Qcmult_inv_r. by apply Qc_of_nat_nonzero.
Qed.

Lemma short_row_sum row :
  binary_row row -> (0 < count_ones row)%nat -> nansum (short_row false row) = nneg one.
Proof.
  intros Hrow Hn. unfold short_row. rewrite (equal_weights_cells row Hrow Hn).
  rewrite nneg_cells.
  rewrite nansum_total by apply cells_notna. rewrite total_of_cells.
  unfold one, nneg. apply (f_equal Fin).
  pose proof (Qc_of_nat_nonzero _ Hn) as Hne.
  transitivity (- (Qc_of_nat (count_ones row) * / Qc_of_nat (count_ones row)))%Qc.
  - unfold Qcdiv. ring.
  - by rewrite Qcmult_inv_r.
Qed.

Lemma binary_blank n : binary_row (replicate n zero).
Proof. apply Forall_replicate. by left. Qed.

Lemma set_ones_binary cols row : binary_row row -> binary_row (set_ones cols row).
Proof.
  intros Hrow. unfold set_ones. induction cols as [|j cols IH]; [done|].
  cbn [foldr]. apply Forall_insert; [exact IH | by right].
Qed.

Lemma length_set_ones cols row : length (set_ones cols row) = length row.
Proof.
  unfold set_ones. induction cols as [|j cols IH]; [done|].
  cbn [foldr]. by rewrite length_insert.
Qed.

Lemma select_row_shape k m :
  binary_row (select_row k m).1 /\ binary_row (select_row k m).2 /\
  length (select_row k m).1 = length m /\ length (select_row k m).2 = length m.
Proof.
  unfold select_row. destruct (num_selected_sectors k m =? 0); cbn [fst snd].
  - rewrite length_replicate. auto using binary_blank.
  - rewrite !length_set_ones, length_replicate.
    auto using set_ones_binary, binary_blank.
Qed.

(** C4.  In every period of the momentum strategy, before inversion: when
    [n > 0] sectors are selected on the long side each of them has weight
    [1/n], every other sector weight 0, and the long row sums to 1; when
    [n > 0] sectors are selected on the short side each of them has weight
    [-1/n], every other sector weight 0, and the short row sums to -1; a
    side with no selection has a row of zeros, none of them missing. *)
Theorem equal_weights_within_a_side k m :
  let top := (select_row k m).1 in
  let bottom := (select_row k m).2 in
  let long := long_row false top in
  let short := short_row false bottom in
  ((0 < count_ones top)%nat ->
     (forall j, top !! j = Some one ->
        long !! j = Some (Fin (1 / Qc_of_nat (count_ones top))%Qc)) /\
     (forall j, top !! j = Some zero -> long !! j = Some zero) /\
     nansum long = one /\ total long = one) /\
  ((0 < count_ones bottom)%nat ->
     (forall j, bottom !! j = Some one ->
        short !! j = Some (Fin (- (1 / Qc_of_nat (count_ones bottom)))%Qc)) /\
     (forall j, bottom !! j = Some zero -> short !! j = Some zero) /\
     nansum short = nneg one /\ total short = nneg one) /\
  (count_ones top = 0%nat -> long = replicate (length m) zero) /\
  (count_ones bottom = 0%nat -> short = replicate (length m) zero) /\
  Forall (fun x => x <> NaN) long /\ Forall (fun x => x <> NaN) short.
Proof.
  intros top bottom long short.
  destruct (select_row_shape k m) as (Htop & Hbottom & Hlt & Hlb).
  fold top in Htop, Hlt. fold bottom in Hbottom, Hlb.
  assert (Hlong : (0 < count_ones top)%nat ->
            long = map (fun e => if is_one e
                                 then Fin (1 / Qc_of_nat (count_ones top))%Qc
                                 else zero) top).
  { intros Hn. subst long. unfold long_row. by apply equal_weights_cells. }
  assert (Hshort : (0 < count_ones bottom)%nat ->
            short = map (fun e => if is_one e
                                  then Fin (- (1 / Qc_of_nat (count_ones bottom)))%Qc
                                  else zero) bottom).
  { intros Hn. subst short. unfold short_row.
    rewrite (equal_weights_cells bottom Hbottom Hn). apply nneg_cells. }
  assert (Hlong0 : count_ones top = 0%nat -> long = replicate (length m) zero).
  { intros Hn. subst long. unfold long_row.
    by rewrite (equal_weights_none top Htop Hn), Hlt. }
  assert (Hshort0 : count_ones bottom = 0%nat -> short = replicate (length m) zero).
  { intros Hn. subst short. unfold short_row.
    by rewrite (equal_weights_none bottom Hbottom Hn), Hlb, nneg_replicate_zero. }
  split; [|split; [|split; [exact Hlong0 | split; [exact Hshort0|]]]].
  - intros Hn. split; [|split; [|split]].
    + intros j Hj. rewrite (Hlong Hn), list_lookup_fmap, Hj. cbn.
      by rewrite is_one_one.
    + intros j Hj. rewrite (Hlong Hn), list_lookup_fmap, Hj. cbn.
      by rewrite is_one_zero.
    + by apply long_row_sum.
    + rewrite <- nansum_total; [by apply long_row_sum|].
      rewrite (Hlong Hn). apply cells_notna.
  - intros Hn. split; [|split; [|split]].
    + intros j Hj. rewrite (Hshort Hn), list_lookup_fmap, Hj. cbn.
      by rewrite is_one_one.
    + intros j Hj. rewrite (Hshort Hn), list_lookup_fmap, Hj. cbn.
      by rewrite is_one_zero.
    + by apply short_row_sum.
    + rewrite <- nansum_total; [by apply short_row_sum|].
      rewrite (Hshort Hn). apply cells_notna.
  - split.
    + destruct (Nat.eq_dec (count_ones top) 0%nat) as [Hz | Hnz].
      * rewrite (Hlong0 Hz). apply Forall_replicate. done.
      * rewrite Hlong by lia. apply cells_notna.
    + destruct (Nat.eq_dec (count_ones bottom) 0%nat) as [Hz | Hnz].
      * rewrite (Hshort0 Hz). apply Forall_replicate. done.
      * rewrite Hshort by lia. apply cells_notna.
Qed.

Lemma equal_weights_within_a_side_witness :
  let m := [of_Z 5; NaN; of_Z 1; of_Z 3; of_Z 2] in
  (select_row 2 m).1 = [one; zero; zero; one; zero] /\
  long_row false (select_row 2 m).1 !! 3%nat = Some (Fin (Q2Qc (1 # 2))) /\
  nansum (long_row false (select_row 2 m).1) = one /\
  nansum (short_row false (select_row 2 m).2) = nneg one /\
  long_row false (select_row 2 [of_Z 5; NaN]).1 = [zero; zero].
Proof.
  intros m.
  destruct (equal_weights_within_a_side 2 m) as (Hlong & Hshort & _).
  destruct (equal_weights_within_a_side 2 [of_Z 5; NaN]) as (_ & _ & Hnone & _).
  assert (Htop : (select_row 2 m).1 = [one; zero; zero; one; zero]) by compute_done.
  assert (Hn : count_ones (select_row 2 m).1 = 2%nat) by (by vm_compute).
  assert (Hb : count_ones (select_row 2 m).2 = 2%nat) by (by vm_compute).
  split; [exact Htop|].
  destruct Hlong as (Hsel & _ & Hsum & _); [rewrite Hn; lia|].
  destruct Hshort as (_ & _ & Hsum' & _); [rewrite Hb; lia|].
  split; [|split; [exact Hsum | split; [exact Hsum'|]]].
  - rewrite (Hsel 3%nat); [|by rewrite Htop].
    apply (f_equal Some). rewrite Hn. compute_done.
  - apply Hnone. by vm_compute.
Defined.

(** ** The stable sort *)

Section StableSort.
Context {A : Type} (le : A -> A -> bool) (P : A -> Prop).
Hypothesis le_total : forall x y, P x -> P y -> le x y = false -> le y x = true.
Hypothesis le_trans :
  forall x y z, P x -> P y -> P z -> le x y = true -> le y z = true -> le x z = true.

Lemma insert_by_perm x l : insert_by le x l ≡ₚ x :: l.
Proof.
  induction l as [|y l IH]; [done|].
  cbn. destruct (le x y); [done|].
  rewrite IH. apply Permutation_swap.
Qed.

Lemma sort_by_perm l : sort_by le l ≡ₚ l.
Proof.
  unfold sort_by. induction l as [|x l IH]; [done|].
  cbn [foldr]. by rewrite insert_by_perm, IH.
Qed.

Lemma insert_by_sorted x l :
  P x -> Forall P l ->
  StronglySorted (fun a b => le a b = true) l ->
  StronglySorted (fun a b => le a b = true) (insert_by le x l).
Proof.
  intros Hx Hl Hsorted. induction Hsorted as [|y l Hsorted IH Hy]; cbn.
  - repeat constructor.
  - apply Forall_cons in Hl as [HPy Hl].
    destruct (le x y) eqn:Exy.
    + constructor; [by constructor|].
      constructor; [done|].
      rewrite Forall_forall in Hy, Hl. apply Forall_forall. intros z Hz.
      eapply (le_trans x y z); eauto.
    + constructor; [by apply IH|].
      rewrite (insert_by_perm x l). constructor; [by apply le_total | done].
Qed.

Lemma sort_by_sorted l :
  Forall P l -> StronglySorted (fun a b => le a b = true) (sort_by le l).
Proof.
  unfold sort_by. induction 1 as [|x l Hx Hl IH]; cbn [foldr]; [constructor|].
  apply insert_by_sorted; [done | | done].
  fold (sort_by le l). by rewrite sort_by_perm.
Qed.

(** Where every element is below every other, the sort changes nothing. *)
Lemma sort_by_all_le l :
  (forall x y, x ∈ l -> y ∈ l -> le x y = true) -> sort_by le l = l.
Proof.
  unfold sort_by. induction l as [|x l IH]; intros Hle; [done|].
  cbn [foldr]. rewrite IH.
  - destruct l as [|y l]; [done|]. cbn.
    rewrite Hle; [done | by left | by right; left].
  - intros a b Ha Hb. apply Hle; by right.
Qed.

End StableSort.

(** ** The order of the scores *)

Lemma nleb_Fin a b : nleb (Fin a) (Fin b) = true <-> (a <= b)%Qc.
Proof.
  cbn. rewrite Qcle_alt. destruct (a ?= b)%Qc; split; intros; done.
Qed.

Lemma nleb_total x y : x <> NaN -> y <> NaN -> nleb x y = false -> nleb y x = true.
Proof.
  destruct x as [a| | |], y as [b| | |]; try done.
  intros _ _ Hxy. apply nleb_Fin.
  destruct (Qclt_le_dec a b) as [Hlt | Hle]; [|done].
  apply Qclt_le_weak, nleb_Fin in Hlt. congruence.
Qed.

Lemma nleb_trans x y z :
  nleb x y = true -> nleb y z = true -> nleb x z = true.
Proof.
  destruct x as [a| | |], y as [b| | |], z as [c| | |]; try done.
  rewrite !nleb_Fin. apply Qcle_trans.
Qed.

Lemma nleb_refl x : x <> NaN -> nleb x x = true.
Proof.
  destruct x as [a| | |]; try done. intros _. apply nleb_Fin, Qcle_refl.
Qed.

(** ** The selection of sectors *)

Lemma elem_of_labelled row j x : (j, x) ∈ labelled row <-> row !! j = Some x.
Proof.
  unfold labelled. rewrite elem_of_lookup_imap. split.
  - intros (i & y & [= -> ->] & Hy). done.
  - intros Hx. by exists j, x.
Qed.

Lemma elem_of_valid row j x : (j, x) ∈ valid row <-> row !! j = Some x /\ x <> NaN.
Proof.
  unfold valid. rewrite list_elem_of_In, filter_In, <- list_elem_of_In, elem_of_labelled.
  cbn. destruct x; cbn; intuition congruence.
Qed.

Lemma labelled_index row : (labelled row).*1 = seq 0 (length row).
Proof.
  unfold labelled. rewrite fmap_imap.
  apply list_eq. intros i. rewrite list_lookup_imap.
  destruct (row !! i) as [x|] eqn:Ex; cbn.
  - by rewrite lookup_seq_lt by by eapply lookup_lt_Some.
  - symmetry. apply lookup_ge_None. rewrite length_seq. by apply lookup_ge_None.
Qed.

Lemma NoDup_filter_fst {B} (f : nat * B -> bool) (l : list (nat * B)) :
  NoDup l.*1 -> NoDup (List.filter f l).*1.
Proof.
  induction l as [|[j x] l IH]; [done|].
  cbn. intros Hnd. apply NoDup_cons in Hnd as [Hj Hnd].
  destruct (f (j, x)); [|by apply IH]. cbn. apply NoDup_cons. split; [|by apply IH].
  intros Hin. apply Hj. apply list_elem_of_fmap in Hin as ([j' x'] & -> & Hin).
  apply list_elem_of_In, filter_In in Hin as [Hin _].
  apply list_elem_of_fmap. exists (j', x'). split; [done | by apply list_elem_of_In].
Qed.

Lemma valid_NoDup row : NoDup (valid row).*1.
Proof.
  unfold valid. apply NoDup_filter_fst. rewrite labelled_index. apply NoDup_seq.
Qed.

Lemma valid_notna row : Forall (fun p => snd p <> NaN) (valid row).
Proof.
  apply Forall_forall. intros [j x] Hin. by apply elem_of_valid in Hin as [_ Hx].
Qed.

Lemma length_filter_imap (g : nat -> nat) row :
  length (List.filter (fun p : nat * number => notna (snd p))
            (imap (fun j x => (g j, x)) row)) =
  length (List.filter notna row).
Proof.
  revert g. induction row as [|x row IH]; intros g; [done|].
  cbn [imap List.filter snd]. destruct (notna x); cbn [length];
    [f_equal|]; apply (IH (g ∘ S)).
Qed.

Lemma length_valid row : length (valid row) = length (dropna row).
Proof. apply (length_filter_imap (fun j => j)). Qed.

Lemma NoDup_fst_unique {K B} (l : list (K * B)) j x x' :
  NoDup l.*1 -> (j, x) ∈ l -> (j, x') ∈ l -> x = x'.
Proof.
  induction l as [|[k y] l IH]; cbn.
  - intros _ Hin. by apply elem_of_nil in Hin.
  - intros Hnd Hin Hin'. apply NoDup_cons in Hnd as [Hk Hnd].
    assert (Hfst : forall z, (k, z) ∈ l -> False).
    { intros z Hz. apply Hk, list_elem_of_fmap. by exists (k, z). }
    apply elem_of_cons in Hin as [[= -> ->] | Hin];
      apply elem_of_cons in Hin' as [[= <-] | Hin']; try done.
    + by destruct (Hfst x').
    + subst. by destruct (Hfst x).
    + by apply IH.
Qed.

Lemma set_ones_lookup_in cols row j :
  j ∈ cols -> (j < length row)%nat -> set_ones cols row !! j = Some one.
Proof.
  unfold set_ones. intros Hin Hj. induction cols as [|c cols IH].
  - by apply elem_of_nil in Hin.
  - cbn [foldr]. fold (set_ones cols row).
    destruct (decide (c = j)) as [-> | Hne].
    + apply list_lookup_insert_eq. by rewrite length_set_ones.
    + rewrite list_lookup_insert_ne by done. apply IH.
      apply elem_of_cons in Hin as [-> | Hin]; done.
Qed.

Lemma set_ones_lookup_notin cols row j :
  j ∉ cols -> set_ones cols row !! j = row !! j.
Proof.
  unfold set_ones. intros Hnotin. induction cols as [|c cols IH]; [done|].
  cbn [foldr]. apply not_elem_of_cons in Hnotin as [Hne Hnotin].
  rewrite list_lookup_insert_ne by done. by apply IH.
Qed.

Lemma count_ones_insert row j :
  row !! j = Some zero -> count_ones (<[j := one]> row) = S (count_ones row).
Proof.
  revert j. induction row as [|e row IH]; intros [|j] Hj; try done.
  - injection Hj as ->.
    change (<[0%nat := one]> (zero :: row)) with (one :: row).
    unfold count_ones. cbn [List.filter]. by rewrite is_one_one, is_one_zero.
  - change (<[S j := one]> (e :: row)) with (e :: <[j := one]> row).
    specialize (IH j Hj). unfold count_ones in *. cbn [List.filter].
    destruct (is_one e); cbn [length]; by rewrite IH.
Qed.

Lemma count_ones_blank n : count_ones (replicate n zero) = 0%nat.
Proof.
  unfold count_ones. induction n as [|n IH]; [done|]. cbn. by rewrite is_one_zero.
Qed.

(** Marking distinct columns of a blank row marks that many cells. *)
Lemma count_ones_set_ones cols n :
  NoDup cols -> Forall (fun j => (j < n)%nat) cols ->
  count_ones (set_ones cols (replicate n zero)) = length cols.
Proof.
  induction 1 as [|c cols Hc Hnd IH]; intros Hlt.
  - apply count_ones_blank.
  - apply Forall_cons in Hlt as [Hcn Hlt].
    change (set_ones (c :: cols) (replicate n zero))
      with (<[c := one]> (set_ones cols (replicate n zero))).
    rewrite count_ones_insert; [cbn; by rewrite IH|].
    rewrite set_ones_lookup_notin by done. by apply lookup_replicate_2.
Qed.

Lemma set_ones_lookup_one cols n j :
  set_ones cols (replicate n zero) !! j = Some one <-> j ∈ cols /\ (j < n)%nat.
Proof.
  split.
  - intros Hj. assert (Hlt : (j < n)%nat).
    { apply lookup_lt_Some in Hj. by rewrite length_set_ones, length_replicate in Hj. }
    split; [|done]. destruct (decide (j ∈ cols)) as [|Hnotin]; [done|].
    rewrite set_ones_lookup_notin, lookup_replicate_2 in Hj by done.
    injection Hj as Hj. symmetry in Hj. by destruct (one_ne_zero).
  - intros [Hin Hlt]. apply set_ones_lookup_in; [done|]. by rewrite length_replicate.
Qed.

(** ** The first [c] of the sorted scores *)

Section Selection.
Context (le : nat * number -> nat * number -> bool).
Hypothesis le_total :
  forall p q, snd p <> NaN -> snd q <> NaN -> le p q = false -> le q p = true.
Hypothesis le_trans :
  forall p q r, snd p <> NaN -> snd q <> NaN -> snd r <> NaN ->
    le p q = true -> le q r = true -> le p r = true.

Lemma first_labels_length c s : length (first_labels le c s) = Nat.min c (length s).
Proof.
  unfold first_labels. rewrite length_map, length_take.
  by rewrite (Permutation_length (sort_by_perm le s)).
Qed.

Lemma first_labels_NoDup c s : NoDup s.*1 -> NoDup (first_labels le c s).
Proof.
  intros Hnd. unfold first_labels.
  change (NoDup (take c (sort_by le s)).*1). rewrite fmap_take.
  eapply sublist_NoDup; [|apply sublist_take].
  by rewrite (sort_by_perm le s).
Qed.

Lemma first_labels_elem c s j :
  j ∈ first_labels le c s -> exists x, (j, x) ∈ take c (sort_by le s) /\ (j, x) ∈ s.
Proof.
  unfold first_labels. intros Hin.
  apply list_elem_of_fmap in Hin as ([j' x] & -> & Hin).
  exists x. split; [done|].
  rewrite <- (sort_by_perm le s). by eapply subseteq_take.
Qed.

(** The selected scores come first in the order. *)
Lemma first_labels_best c s j x j' y :
  NoDup s.*1 -> Forall (fun p => snd p <> NaN) s ->
  (j, x) ∈ s -> j ∈ first_labels le c s ->
  (j', y) ∈ s -> j' ∉ first_labels le c s ->
  le (j, x) (j', y) = true.
Proof.
  intros Hnd Hs Hx Hj Hy Hj'.
  destruct (first_labels_elem c s j Hj) as (x' & Htake & Hx').
  assert (x' = x) as -> by (by eapply NoDup_fst_unique).
  pose proof (sort_by_sorted le (fun p => snd p <> NaN) le_total le_trans s Hs) as Hsorted.
  rewrite <- (take_drop c (sort_by le s)) in Hsorted.
  eapply (StronglySorted_app_1_elem_of _ _ _ _ _ Hsorted); [done|].
  assert (Hin : (j', y) ∈ sort_by le s) by (by rewrite (sort_by_perm le s)).
  rewrite <- (take_drop c (sort_by le s)) in Hin.
  apply elem_of_app in Hin as [Hin | Hin]; [|done].
  exfalso. apply Hj'. unfold first_labels.
  apply (list_elem_of_fmap_2 fst) in Hin. exact Hin.
Qed.

End Selection.

Lemma valid_in_range row j x : (j, x) ∈ valid row -> (j < length row)%nat.
Proof. intros [Hj _]%elem_of_valid. by eapply lookup_lt_Some. Qed.

Lemma first_labels_in_range le c row :
  Forall (fun j => (j < length row)%nat) (first_labels le c (valid row)).
Proof.
  apply Forall_forall. intros j Hj.
  destruct (first_labels_elem le c (valid row) j Hj) as (x & _ & Hx).
  by eapply valid_in_range.
Qed.

Lemma num_selected_bounds k m :
  0 <= k ->
  0 <= num_selected_sectors k m /\
  (Z.to_nat (num_selected_sectors k m) <= length (valid m))%nat.
Proof.
  intros Hk. unfold num_selected_sectors.
  pose proof (Z.div_pos (Z.of_nat (length (valid m))) 2 ltac:(lia) ltac:(lia)).
  assert (Z.of_nat (length (valid m)) / 2 <= Z.of_nat (length (valid m))).
  { apply Z.div_le_upper_bound; lia. }
  lia.
Qed.

Lemma nlargest_first_labels n s :
  0 < n ->
  nlargest n s = first_labels (fun p q => nleb (snd q) (snd p)) (Z.to_nat n) s.
Proof. intros Hn. unfold nlargest. by destruct (n <=? 0) eqn:E; [lia|]. Qed.

Lemma nsmallest_first_labels n s :
  0 < n ->
  nsmallest n s = first_labels (fun p q => nleb (snd p) (snd q)) (Z.to_nat n) s.
Proof. intros Hn. unfold nsmallest. by destruct (n <=? 0) eqn:E; [lia|]. Qed.

Lemma nlargest_nonpositive n s : n <= 0 -> nlargest n s = [].
Proof. intros Hn. unfold nlargest. by destruct (n <=? 0) eqn:E; [|lia]. Qed.

Lemma nsmallest_nonpositive n s : n <= 0 -> nsmallest n s = [].
Proof. intros Hn. unfold nsmallest. by destruct (n <=? 0) eqn:E; [|lia]. Qed.

Lemma count_first_labels le c m :
  (c <= length (valid m))%nat ->
  count_ones (set_ones (first_labels le c (valid m)) (replicate (length m) zero)) = c.
Proof.
  intros Hc. rewrite count_ones_set_ones.
  - rewrite first_labels_length. lia.
  - apply first_labels_NoDup, valid_NoDup.
  - apply first_labels_in_range.
Qed.

Lemma select_row_marks k m :
  0 <= k ->
  let n := Z.min k (Z.of_nat (length (dropna m)) / 2) in
  Z.of_nat (count_ones (select_row k m).1) = n /\
  Z.of_nat (count_ones (select_row k m).2) = n /\
  (forall j, (select_row k m).1 !! j = Some one ->
             exists x, m !! j = Some x /\ x <> NaN) /\
  (forall j, (select_row k m).2 !! j = Some one ->
             exists x, m !! j = Some x /\ x <> NaN).
Proof.
  intros Hk n.
  assert (Hn : num_selected_sectors k m = n).
  { unfold num_selected_sectors, n. by rewrite length_valid. }
  destruct (num_selected_bounds k m Hk) as [Hge Hle]. rewrite Hn in Hge, Hle.
  unfold select_row. rewrite Hn. destruct (n =? 0) eqn:E; cbn [fst snd].
  - apply Z.eqb_eq in E. rewrite count_ones_blank.
    split; [lia|]. split; [lia|].
    split; intros j Hj; apply lookup_replicate_1 in Hj as [Hj _];
      symmetry in Hj; by destruct one_ne_zero.
  - apply Z.eqb_neq in E.
    rewrite nlargest_first_labels, nsmallest_first_labels by lia.
    rewrite !count_first_labels by done.
    split; [lia|]. split; [lia|].
    split; intros j [Hj _]%set_ones_lookup_one;
      apply first_labels_elem in Hj as (x & _ & Hx);
      exists x; by apply elem_of_valid.
Qed.

(** X1.  With a sector count [k >= 0], each turn of the selection loop
    marks exactly [min(k, available // 2)] sectors in the top row and as
    many in the bottom row, where [available] counts the sectors whose
    momentum score is not missing; a marked sector always has a score. *)
Theorem selection_counts k m :
  0 <= k ->
  let n := Z.min k (Z.of_nat (length (dropna m)) / 2) in
  Z.of_nat (count_ones (select_row k m).1) = n /\
  Z.of_nat (count_ones (select_row k m).2) = n /\
  (forall j, (select_row k m).1 !! j = Some one ->
             exists x, m !! j = Some x /\ x <> NaN) /\
  (forall j, (select_row k m).2 !! j = Some one ->
             exists x, m !! j = Some x /\ x <> NaN).
Proof. exact (select_row_marks k m). Qed.

Lemma selection_counts_witness :
  let m := [of_Z 5; NaN; of_Z 1; of_Z 3; of_Z 2; of_Z 4] in
  Z.of_nat (count_ones (select_row 7 m).1) = 2 /\
  Z.of_nat (count_ones (select_row 7 m).2) = 2.
Proof.
  intros m. destruct (selection_counts 7 m) as (Htop & Hbottom & _); [lia|].
  split; [exact Htop | exact Hbottom].
Defined.

Lemma desc_total (p q : nat * number) :
  snd p <> NaN -> snd q <> NaN ->
  nleb (snd q) (snd p) = false -> nleb (snd p) (snd q) = true.
Proof. intros Hp Hq. by apply nleb_total. Qed.

Lemma desc_trans (p q r : nat * number) :
  snd p <> NaN -> snd q <> NaN -> snd r <> NaN ->
  nleb (snd q) (snd p) = true -> nleb (snd r) (snd q) = true ->
  nleb (snd r) (snd p) = true.
Proof. intros _ _ _ Hqp Hrq. by eapply nleb_trans. Qed.

Lemma asc_total (p q : nat * number) :
  snd p <> NaN -> snd q <> NaN ->
  nleb (snd p) (snd q) = false -> nleb (snd q) (snd p) = true.
Proof. intros Hp Hq. by apply nleb_total. Qed.

Lemma asc_trans (p q r : nat * number) :
  snd p <> NaN -> snd q <> NaN -> snd r <> NaN ->
  nleb (snd p) (snd q) = true -> nleb (snd q) (snd r) = true ->
  nleb (snd p) (snd r) = true.
Proof. intros _ _ _ Hpq Hqr. by eapply nleb_trans. Qed.

Lemma blank_not_one n j : replicate n zero !! j = Some one -> False.
Proof.
  intros [Hj _]%lookup_replicate_1. symmetry in Hj. by destruct one_ne_zero.
Qed.

Lemma set_ones_lookup_zero cols n j :
  set_ones cols (replicate n zero) !! j = Some zero -> j ∉ cols.
Proof.
  intros Hj Hin. assert (Hlt : (j < n)%nat).
  { apply lookup_lt_Some in Hj. by rewrite length_set_ones, length_replicate in Hj. }
  rewrite set_ones_lookup_in in Hj; [|done | by rewrite length_replicate].
  injection Hj as Hj. by destruct one_ne_zero.
Qed.

Lemma select_row_ranks k m j x j' y :
  m !! j = Some x -> m !! j' = Some y -> y <> NaN ->
  ((select_row k m).1 !! j = Some one -> (select_row k m).1 !! j' = Some zero ->
   nleb y x = true) /\
  ((select_row k m).2 !! j = Some one -> (select_row k m).2 !! j' = Some zero ->
   nleb x y = true).
Proof.
  intros Hx Hy Hyn. unfold select_row.
  destruct (num_selected_sectors k m =? 0) eqn:E; cbn [fst snd].
  { split; intros Hj; by apply blank_not_one in Hj. }
  destruct (Z_le_gt_dec (num_selected_sectors k m) 0) as [Hle | Hgt].
  { rewrite nlargest_nonpositive, nsmallest_nonpositive by done.
    split; intros Hj; by apply blank_not_one in Hj. }
  rewrite nlargest_first_labels, nsmallest_first_labels by lia.
  split; intros [Hj _]%set_ones_lookup_one Hj'%set_ones_lookup_zero.
  - assert (Hxn : x <> NaN).
    { apply first_labels_elem in Hj as (x' & _ & [Hx' Hn]%elem_of_valid). congruence. }
    apply (first_labels_best (fun p q => nleb (snd q) (snd p)) desc_total desc_trans
             (Z.to_nat (num_selected_sectors k m)) (valid m) j x j' y);
      auto using valid_NoDup, valid_notna; by apply elem_of_valid.
  - assert (Hxn : x <> NaN).
    { apply first_labels_elem in Hj as (x' & _ & [Hx' Hn]%elem_of_valid). congruence. }
    apply (first_labels_best (fun p q => nleb (snd p) (snd q)) asc_total asc_trans
             (Z.to_nat (num_selected_sectors k m)) (valid m) j x j' y);
      auto using valid_NoDup, valid_notna; by apply elem_of_valid.
Qed.

(** X2.  The sectors marked in the top row are those of the highest
    momentum scores and the sectors marked in the bottom row those of the
    lowest: a marked sector's score is never below (top) or above
    (bottom) the score of a sector that has a score and is not marked. *)
Theorem selection_ranks_scores k m j x j' y :
  m !! j = Some x -> m !! j' = Some y -> y <> NaN ->
  ((select_row k m).1 !! j = Some one -> (select_row k m).1 !! j' = Some zero ->
   nleb y x = true) /\
  ((select_row k m).2 !! j = Some one -> (select_row k m).2 !! j' = Some zero ->
   nleb x y = true).
Proof. exact (select_row_ranks k m j x j' y). Qed.

Lemma selection_ranks_scores_witness :
  let m := [of_Z 5; NaN; of_Z 1; of_Z 3; of_Z 2; of_Z 4] in
  (select_row 1 m).1 !! 0%nat = Some one /\
  (select_row 1 m).1 !! 3%nat = Some zero /\
  nleb (of_Z 3) (of_Z 5) = true.
Proof.
  intros m.
  assert (H0 : (select_row 1 m).1 !! 0%nat = Some one) by compute_done.
  assert (H3 : (select_row 1 m).1 !! 3%nat = Some zero) by compute_done.
  split; [exact H0|]. split; [exact H3|].
  refine (proj1 (selection_ranks_scores 1 m 0 (of_Z 5) 3 (of_Z 3) _ _ _) H0 H3);
    [reflexivity | reflexivity | discriminate].
Defined.

(** ** Periods without a selection *)

Lemma nadd_zero_zero : nadd zero zero = zero.
Proof. compute_done. Qed.

Lemma combined_blank n :
  combined_row (replicate n zero) (replicate n zero) = replicate n zero.
Proof.
  unfold combined_row. induction n as [|n IH]; [done|].
  cbn [replicate zip_with]. by rewrite IH, nadd_zero_zero.
Qed.

Lemma long_row_blank invert n :
  long_row invert (replicate n zero) = replicate n zero.
Proof.
  unfold long_row.
  rewrite (equal_weights_none _ (binary_blank n) (count_ones_blank n)), length_replicate.
  destruct invert; [apply nneg_replicate_zero | done].
Qed.

Lemma short_row_blank invert n :
  short_row invert (replicate n zero) = replicate n zero.
Proof.
  unfold short_row.
  rewrite (equal_weights_none _ (binary_blank n) (count_ones_blank n)), length_replicate.
  destruct invert; by rewrite ?nneg_replicate_zero.
Qed.

Lemma select_row_blank k m invert_l invert_s :
  k = 0 \/ (length (dropna m) < 2)%nat ->
  let blank := replicate (length m) zero in
  select_row k m = (blank, blank) /\
  long_row invert_l (select_row k m).1 = blank /\
  short_row invert_s (select_row k m).2 = blank /\
  combined_row (long_row invert_l (select_row k m).1)
               (short_row invert_s (select_row k m).2) = blank.
Proof.
  intros Hcase blank.
  assert (Hsel : select_row k m = (blank, blank)).
  { unfold select_row.
    assert (Hn : num_selected_sectors k m = 0 \/ num_selected_sectors k m < 0).
    { unfold num_selected_sectors. rewrite length_valid.
      destruct Hcase as [-> | Hlt].
      - pose proof (Z.div_pos (Z.of_nat (length (dropna m))) 2 ltac:(lia) ltac:(lia)). lia.
      - assert (Z.of_nat (length (dropna m)) / 2 = 0) as -> by (apply Z.div_small; lia).
        lia. }
    destruct Hn as [-> | Hneg]; [done|].
    destruct (num_selected_sectors k m =? 0); [done|].
    by rewrite nlargest_nonpositive, nsmallest_nonpositive by lia. }
  rewrite Hsel. cbn [fst snd]. subst blank.
  rewrite long_row_blank, short_row_blank, combined_blank. done.
Qed.

(** X3.  When the sector count is 0 or fewer than two sectors have a
    momentum score, the loop marks nothing, and the long, short and
    combined position rows of that period are rows of exact zeros
    whatever the inversion flags are. *)
Theorem no_selection_gives_zero_rows k m invert_l invert_s :
  k = 0 \/ (length (dropna m) < 2)%nat ->
  let blank := replicate (length m) zero in
  select_row k m = (blank, blank) /\
  long_row invert_l (select_row k m).1 = blank /\
  short_row invert_s (select_row k m).2 = blank /\
  combined_row (long_row invert_l (select_row k m).1)
               (short_row invert_s (select_row k m).2) = blank.
Proof. exact (select_row_blank k m invert_l invert_s). Qed.

Lemma no_selection_gives_zero_rows_witness :
  select_row 3 [NaN; of_Z 7; NaN] = ([zero; zero; zero], [zero; zero; zero]) /\
  combined_row (long_row true (select_row 3 [NaN; of_Z 7; NaN]).1)
               (short_row false (select_row 3 [NaN; of_Z 7; NaN]).2) =
  [zero; zero; zero].
Proof.
  destruct (no_selection_gives_zero_rows 3 [NaN; of_Z 7; NaN] true false)
    as (Hsel & _ & _ & Hcomb); [right; cbn; lia|].
  split; [exact Hsel | exact Hcomb].
Defined.

(** ** The combined book *)

Lemma total_zip_nadd a b :
  Forall (fun x => isfinite x = true) a ->
  Forall (fun x => isfinite x = true) b ->
  length a = length b ->
  total (zip_with nadd a b) = nadd (total a) (total b).
Proof.
  intros Ha. revert b. induction Ha as [|x a Hx Ha IH]; intros b Hb Hlen.
  - destruct b; [|done]. change (zero = nadd zero zero). by rewrite nadd_zero_zero.
  - destruct Hb as [|y b Hy Hb]; [done|].
    cbn [zip_with total foldr]. fold (total (zip_with nadd a b)).
    fold (total a). fold (total b).
    rewrite IH by (cbn in Hlen; auto with lia).
    pose proof (total_finite a Ha) as Hta. pose proof (total_finite b Hb) as Htb.
    destruct x as [qx| | |], y as [qy| | |], (total a) as [qa| | |],
      (total b) as [qb| | |]; try done.
    cbn. apply (f_equal Fin). ring.
Qed.

Lemma zip_nadd_finite a b :
  Forall (fun x => isfinite x = true) a ->
  Forall (fun x => isfinite x = true) b ->
  Forall (fun x => isfinite x = true) (zip_with nadd a b).
Proof.
  intros Ha. revert b. induction Ha as [|x a Hx Ha IH]; intros b Hb; [constructor|].
  destruct Hb as [|y b Hy Hb]; cbn; constructor; [by apply nadd_finite | by apply IH].
Qed.

Lemma cells_finite row q :
  Forall (fun x => isfinite x = true)
         (map (fun e => if is_one e then Fin q else zero) row).
Proof.
  apply Forall_fmap, Forall_forall. intros e _. cbn. by destruct (is_one e).
Qed.

Lemma equal_weights_finite row :
  binary_row row -> Forall (fun x => isfinite x = true) (equal_weights row).
Proof.
  intros Hrow. destruct (Nat.eq_dec (count_ones row) 0%nat) as [Hz | Hnz].
  - rewrite (equal_weights_none row Hrow Hz). by apply Forall_replicate.
  - rewrite (equal_weights_cells row Hrow) by lia. apply cells_finite.
Qed.

Lemma length_equal_weights row : length (equal_weights row) = length row.
Proof. unfold equal_weights. by rewrite length_map. Qed.

Lemma nneg_finite l :
  Forall (fun x => isfinite x = true) l ->
  Forall (fun x => isfinite x = true) (map nneg l).
Proof.
  intros Hl. apply Forall_fmap. eapply Forall_impl; [exact Hl|]. by intros [].
Qed.

Lemma one_minus_one : nadd one (nneg one) = zero.
Proof. compute_done. Qed.

(** X4.  In a period in which sectors are selected (a positive sector
    count and at least two sectors with a score), the combined row of
    the long and the short weights, without inversion, sums to exactly
    0: the combined book is dollar neutral. *)
Theorem combined_row_is_dollar_neutral k m :
  0 < k -> (2 <= length (dropna m))%nat ->
  let long := long_row false (select_row k m).1 in
  let short := short_row false (select_row k m).2 in
  nansum long = one /\ nansum short = nneg one /\
  nansum (combined_row long short) = zero /\
  total (combined_row long short) = zero.
Proof.
  intros Hk Hm long short.
  destruct (select_row_shape k m) as (Htop & Hbottom & Hlt & Hlb).
  destruct (select_row_marks k m) as (Hct & Hcb & _); [lia|].
  assert (Hpos : 0 < Z.min k (Z.of_nat (length (dropna m)) / 2)).
  { assert (1 <= Z.of_nat (length (dropna m)) / 2) by (apply Z.div_le_lower_bound; lia).
    lia. }
  assert (Hnt : (0 < count_ones (select_row k m).1)%nat) by lia.
  assert (Hnb : (0 < count_ones (select_row k m).2)%nat) by lia.
  assert (Hfl : Forall (fun x => isfinite x = true) long).
  { by apply equal_weights_finite. }
  assert (Hfs : Forall (fun x => isfinite x = true) short).
  { by apply nneg_finite, equal_weights_finite. }
  assert (Hsum_l : nansum long = one) by (by apply long_row_sum).
  assert (Hsum_s : nansum short = nneg one) by (by apply short_row_sum).
  assert (Htotal : total (combined_row long short) = zero).
  { unfold combined_row. rewrite total_zip_nadd; try done.
    - rewrite <- !nansum_total by by apply finite_notna.
      by rewrite Hsum_l, Hsum_s, one_minus_one.
    - subst long short. unfold long_row, short_row.
      rewrite length_map, !length_equal_weights. congruence. }
  split; [done|]. split; [done|]. split; [|done].
  rewrite nansum_total; [done|].
  by apply finite_notna, zip_nadd_finite.
Qed.

Lemma combined_row_is_dollar_neutral_witness :
  let m := [of_Z 5; NaN; of_Z 1; of_Z 3; of_Z 2; of_Z 4] in
  nansum (combined_row (long_row false (select_row 2 m).1)
                       (short_row false (select_row 2 m).2)) = zero.
Proof.
  intros m.
  destruct (combined_row_is_dollar_neutral 2 m) as (_ & _ & Hsum & _);
    [lia | cbn; lia | exact Hsum].
Defined.

(** ** Equal scores *)

Lemma zip_nadd_nneg w :
  Forall (fun x => isfinite x = true) w ->
  zip_with nadd w (map nneg w) = replicate (length w) zero.
Proof.
  induction 1 as [|x w Hx _ IH]; [done|].
  cbn [map zip_with length replicate]. rewrite IH. f_equal.
  destruct x as [a| | |]; try done.
  unfold nneg, nadd, zero. apply (f_equal Fin). apply Qcplus_opp_r.
Qed.

(** ** The signals of the momentum strategy *)

Lemma frequencies_lookup f :
  f ∈ frequencies -> exists p, freq_to_periods !! f = Some p.
Proof.
  unfold frequencies. intros Hf.
  repeat (apply elem_of_cons in Hf as [-> | Hf]; [by eexists|]).
  by apply elem_of_nil in Hf.
Qed.

Lemma set_parameters_legs kwargs p : set_parameters kwargs = inr p -> legs p ∈ valid_legs.
Proof.
  unfold set_parameters. case_bool_decide as Hlegs; [|done].
  by intros [= <-].
Qed.

(** What [generate_signals] returns for a frequency of the table and a
    valid leg code. *)
Lemma generate_signals_value p n cols ppy :
  freq_to_periods !! trading_frequency p = Some ppy ->
  legs p ∈ valid_legs ->
  let w := Z.to_nat (11 * ppy / 12 - 1) in
  let momentum_rows :=
    map (row_of (map (fun c => map (rolling_mean_at w 1 (shift1 c)) (seq 0 (length c)))
                     cols))
        (seq 0 n) in
  let top := map fst (map (select_row (num_sectors p)) momentum_rows) in
  let bottom := map snd (map (select_row (num_sectors p)) momentum_rows) in
  let long := map (long_row (invert_long p)) top in
  let short := map (short_row (invert_short p)) bottom in
  let combined := zip_with combined_row long short in
  exists s,
    generate_signals p n cols = inr s /\
    top_presence_matrix s = top /\ bottom_presence_matrix s = bottom /\
    asset_returns s = map (row_of cols) (seq 0 n) /\
    sig_trading_frequency s = trading_frequency p /\
    (legs p = "L"%string /\ positions s = OneLeg long \/
     legs p = "S"%string /\ positions s = OneLeg short \/
     legs p = "LS"%string /\ positions s = OneLeg combined \/
     legs p = "ALL"%string /\
     positions s = AllLegs [("Long", long); ("Short", short);
                            ("Combined", combined)]%string).
Proof.
  intros Hf Hlegs w momentum_rows top bottom long short combined.
  destruct (determine_window_size_value _ _ Hf) as [Hws Hge].
  unfold generate_signals. rewrite Hws. cbn [bind].
  unfold rolling_validate.
  destruct (11 * ppy / 12 - 1 <? 0) eqn:E1; [lia|].
  destruct (11 * ppy / 12 - 1 <? 1) eqn:E2; [lia|].
  cbn [bind ret].
  unfold valid_legs in Hlegs.
  repeat (apply elem_of_cons in Hlegs as [Hl | Hlegs];
          [rewrite Hl; cbn [String.eqb Ascii.eqb Bool.eqb bind ret];
           eexists; split; [reflexivity|]; cbn; rewrite ?Hl; intuition auto |]).
  by apply elem_of_nil in Hlegs.
Qed.

Lemma generate_signals_legs p n cols s :
  generate_signals p n cols = inr s -> legs p ∈ valid_legs.
Proof.
  unfold generate_signals, valid_legs.
  destruct (_determine_window_size (trading_frequency p)) as [e | ws]; cbn [bind]; [done|].
  destruct (rolling_validate (ws - 1) 1) as [e | []]; cbn [bind]; [done|].
  destruct (String.eqb (legs p) "L") eqn:EL;
    [apply String.eqb_eq in EL as ->; intros _; set_solver|].
  destruct (String.eqb (legs p) "S") eqn:ES;
    [apply String.eqb_eq in ES as ->; intros _; set_solver|].
  destruct (String.eqb (legs p) "LS") eqn:ELS;
    [apply String.eqb_eq in ELS as ->; intros _; set_solver|].
  destruct (String.eqb (legs p) "ALL") eqn:EALL;
    [apply String.eqb_eq in EALL as ->; intros _; set_solver|].
  done.
Qed.

Lemma length_row_of cols t : length (row_of cols t) = length cols.
Proof. unfold row_of. by rewrite length_map. Qed.

Lemma length_long_row invert row : length (long_row invert row) = length row.
Proof.
  unfold long_row. destruct invert; by rewrite ?length_map, length_equal_weights.
Qed.

Lemma length_short_row invert row : length (short_row invert row) = length row.
Proof.
  unfold short_row. destruct invert; by rewrite ?length_map, length_equal_weights.
Qed.

Lemma length_combined_row long short :
  length short = length long -> length (combined_row long short) = length long.
Proof. intros Hlen. unfold combined_row. rewrite length_zip_with. lia. Qed.

(** The shape of a matrix: [n] rows of [c] cells. *)
Lemma shape_map {A} (f : A -> list number) (l : list A) c :
  (forall a, a ∈ l -> length (f a) = c) ->
  length (map f l) = length l /\ Forall (fun row => length row = c) (map f l).
Proof.
  intros Hf. split; [by rewrite length_map|].
  apply Forall_fmap, Forall_forall. intros a Ha. by apply Hf.
Qed.

(** The momentum score of the first period is missing for every sector. *)
Lemma first_momentum_row_missing w cols :
  (1 <= w)%nat ->
  dropna (row_of (map (fun c => map (rolling_mean_at w 1 (shift1 c)) (seq 0 (length c)))
                      cols) 0) = [].
Proof.
  intros Hw. unfold row_of. rewrite map_map. unfold dropna.
  induction cols as [|c cols IH]; [done|].
  cbn [map List.filter]. rewrite IH.
  destruct c as [|x c]; [done|].
  cbn [length seq map nth]. rewrite shift1_cons.
  unfold rolling_mean_at, window_values.
  replace (0 + 1 - w)%nat with 0%nat by lia. cbn. done.
Qed.

(** X6.  After [set_parameters] has accepted a configuration, the only
    way [generate_signals] (from the momentum score on) can fail is an
    unknown trading frequency: the last "invalid legs" branch is never
    reached.  With a frequency of the table it returns the asset returns
    and the position matrices, each of one row per period and one column
    per sector; one matrix for the leg codes L, S and LS, three for ALL. *)
Theorem signals_after_set_parameters kwargs p n cols :
  set_parameters kwargs = inr p ->
  (trading_frequency p ∉ frequencies ->
     generate_signals p n cols = inl (ValueError "Invalid trading frequency.")) /\
  (trading_frequency p ∈ frequencies ->
     exists s,
       generate_signals p n cols = inr s /\
       sig_trading_frequency s = trading_frequency p /\
       length (asset_returns s) = n /\
       Forall (fun mtx => length mtx = n /\
                          Forall (fun row => length row = length cols) mtx)
              (leg_matrices (positions s)) /\
       length (leg_matrices (positions s)) =
         (if String.eqb (legs p) "ALL" then 3 else 1)%nat).
Proof.
  intros Hset. pose proof (set_parameters_legs _ _ Hset) as Hlegs. split.
  - intros Hf. unfold generate_signals.
    by rewrite (determine_window_size_outside _ Hf).
  - intros [ppy Hf]%frequencies_lookup.
    destruct (generate_signals_value p n cols ppy Hf Hlegs)
      as (s & Hs & _ & _ & Hret & Hfreq & Hpos).
    exists s. split; [exact Hs|]. split; [exact Hfreq|].
    split; [by rewrite Hret, length_map, length_seq|].
    set (w := Z.to_nat (11 * ppy / 12 - 1)) in *.
    set (momentum_rows :=
           map (row_of (map (fun c => map (rolling_mean_at w 1 (shift1 c))
                                          (seq 0 (length c))) cols)) (seq 0 n)) in *.
    assert (Hrows : length momentum_rows = n /\
                    Forall (fun row => length row = length cols) momentum_rows).
    { subst momentum_rows.
      destruct (shape_map
                  (row_of (map (fun c => map (rolling_mean_at w 1 (shift1 c))
                                             (seq 0 (length c))) cols))
                  (seq 0 n) (length cols)) as [Hlen Hall].
      - intros t _. by rewrite length_row_of, length_map.
      - split; [by rewrite Hlen, length_seq | exact Hall]. }
    destruct Hrows as [Hn Hwidth]. rewrite Forall_forall in Hwidth.
    set (top := map fst (map (select_row (num_sectors p)) momentum_rows)) in *.
    set (bottom := map snd (map (select_row (num_sectors p)) momentum_rows)) in *.
    assert (Htop : length top = n /\ Forall (fun row => length row = length cols) top).
    { subst top. rewrite map_map, <- Hn. apply shape_map. intros m Hm. cbn.
      destruct (select_row_shape (num_sectors p) m) as (_ & _ & -> & _). by apply Hwidth. }
    assert (Hbottom : length bottom = n /\
                      Forall (fun row => length row = length cols) bottom).
    { subst bottom. rewrite map_map, <- Hn. apply shape_map. intros m Hm. cbn.
      destruct (select_row_shape (num_sectors p) m) as (_ & _ & _ & ->). by apply Hwidth. }
    destruct Htop as [Htn Htw], Hbottom as [Hbn Hbw].
    set (long := map (long_row (invert_long p)) top) in *.
    set (short := map (short_row (invert_short p)) bottom) in *.
    assert (Hlong : length long = n /\ Forall (fun row => length row = length cols) long).
    { subst long. rewrite <- Htn. apply shape_map. intros r Hr.
      rewrite length_long_row. rewrite Forall_forall in Htw. by apply Htw. }
    assert (Hshort : length short = n /\
                     Forall (fun row => length row = length cols) short).
    { subst short. rewrite <- Hbn. apply shape_map. intros r Hr.
      rewrite length_short_row. rewrite Forall_forall in Hbw. by apply Hbw. }
    assert (Hcomb : length (zip_with combined_row long short) = n /\
                    Forall (fun row => length row = length cols)
                           (zip_with combined_row long short)).
    { destruct Hlong as [Hln Hlw], Hshort as [Hsn Hsw].
      split; [rewrite length_zip_with; lia|].
      apply Forall_lookup. intros i row Hi. rewrite lookup_zip_with in Hi.
      destruct (long !! i) as [l|] eqn:El; [|done].
      destruct (short !! i) as [r|] eqn:Er; [|done]. cbn in Hi. injection Hi as <-.
      pose proof (Forall_lookup_1 _ _ _ _ Hlw El) as Hl.
      pose proof (Forall_lookup_1 _ _ _ _ Hsw Er) as Hr. cbn in Hl, Hr.
      rewrite length_combined_row; congruence. }
    destruct Hpos as [[Hl ->] | [[Hl ->] | [[Hl ->] | [Hl ->]]]]; rewrite Hl; cbn;
      (split; [repeat constructor; tauto | reflexivity]).
Qed.

Lemma signals_after_set_parameters_witness :
  let kwargs := {| kw_num_sectors := Some 1; kw_trading_frequency := Some "w"%string;
                   kw_start_date := None; kw_end_date := None;
                   kw_invert_long := None; kw_invert_short := None;
                   kw_legs := Some "all"%string |} in
  exists p s,
    set_parameters kwargs = inr p /\
    generate_signals p 2 [[of_Z 1; of_Z 2]; [of_Z 3; of_Z 4]] = inr s /\
    length (leg_matrices (positions s)) = 3%nat.
Proof.
  intros kwargs.
  destruct (set_parameters kwargs) as [e | p] eqn:Ep; [by vm_compute in Ep|].
  destruct (signals_after_set_parameters kwargs p 2 [[of_Z 1; of_Z 2]; [of_Z 3; of_Z 4]] Ep)
    as [_ Hok].
  assert (Hp : trading_frequency p = "W"%string /\ legs p = "ALL"%string).
  { vm_compute in Ep. injection Ep as <-. by split. }
  destruct Hp as [Hfreq Hlegs].
  destruct Hok as (s & Hs & _ & _ & _ & Hlen); [rewrite Hfreq; compute_done|].
  exists p, s. split; [reflexivity|]. split; [exact Hs|].
  by rewrite Hlen, Hlegs.
Defined.

(** X7.  In the first period the momentum score is missing for every
    sector (it only looks at earlier periods), so no sector is selected
    and every position matrix the strategy returns has a first row of
    exact zeros. *)
Theorem first_period_holds_no_position p n cols s :
  generate_signals p n cols = inr s ->
  (0 < n)%nat ->
  top_presence_matrix s !! 0%nat = Some (replicate (length cols) zero) /\
  bottom_presence_matrix s !! 0%nat = Some (replicate (length cols) zero) /\
  Forall (fun mtx => mtx !! 0%nat = Some (replicate (length cols) zero))
         (leg_matrices (positions s)).
Proof.
  intros Hs Hn. pose proof (generate_signals_legs _ _ _ _ Hs) as Hlegs.
  destruct (freq_to_periods !! trading_frequency p) as [ppy|] eqn:Hf.
  2:{ unfold generate_signals, _determine_window_size in Hs. by rewrite Hf in Hs. }
  destruct (generate_signals_value p n cols ppy Hf Hlegs)
    as (s' & Hs' & Htop & Hbottom & _ & _ & Hpos).
  rewrite Hs in Hs'. injection Hs' as <-.
  set (w := Z.to_nat (11 * ppy / 12 - 1)) in *.
  assert (Hw : (1 <= w)%nat).
  { destruct (determine_window_size_value _ _ Hf) as [_ Hge]. subst w. lia. }
  set (mcols := map (fun c => map (rolling_mean_at w 1 (shift1 c)) (seq 0 (length c)))
                    cols) in *.
  assert (Hsel : forall il is_,
            let r := select_row (num_sectors p) (row_of mcols 0) in
            r = (replicate (length cols) zero, replicate (length cols) zero) /\
            long_row il r.1 = replicate (length cols) zero /\
            short_row is_ r.2 = replicate (length cols) zero /\
            combined_row (long_row il r.1) (short_row is_ r.2) =
              replicate (length cols) zero).
  { intros il is_.
    pose proof (select_row_blank (num_sectors p) (row_of mcols 0) il is_) as Hblank.
    rewrite length_row_of in Hblank. subst mcols. rewrite length_map in Hblank.
    apply Hblank. right. rewrite first_momentum_row_missing by done. cbn. lia. }
  destruct n as [|n]; [lia|].
  destruct (Hsel (invert_long p) (invert_short p)) as (Hr & Hl & Hsh & Hc).
  cbn zeta in Hr, Hl, Hsh, Hc.
  assert (Ht0 : top_presence_matrix s !! 0%nat = Some (replicate (length cols) zero)).
  { rewrite Htop. cbn [seq map lookup list_lookup]. by rewrite Hr. }
  assert (Hb0 : bottom_presence_matrix s !! 0%nat = Some (replicate (length cols) zero)).
  { rewrite Hbottom. cbn [seq map lookup list_lookup]. by rewrite Hr. }
  split; [exact Ht0|]. split; [exact Hb0|].
  assert (Hlong0 : map (long_row (invert_long p))
                     (map fst (map (select_row (num_sectors p))
                                   (map (row_of mcols) (seq 0 (S n))))) !! 0%nat =
                   Some (replicate (length cols) zero)).
  { cbn [seq map lookup list_lookup]. by rewrite Hl. }
  assert (Hshort0 : map (short_row (invert_short p))
                      (map snd (map (select_row (num_sectors p))
                                    (map (row_of mcols) (seq 0 (S n))))) !! 0%nat =
                    Some (replicate (length cols) zero)).
  { cbn [seq map lookup list_lookup]. by rewrite Hsh. }
  assert (Hcomb0 : zip_with combined_row
                     (map (long_row (invert_long p))
                        (map fst (map (select_row (num_sectors p))
                                      (map (row_of mcols) (seq 0 (S n))))))
                     (map (short_row (invert_short p))
                        (map snd (map (select_row (num_sectors p))
                                      (map (row_of mcols) (seq 0 (S n)))))) !! 0%nat =
                   Some (replicate (length cols) zero)).
  { cbn [seq map zip_with lookup list_lookup]. by rewrite Hc. }
  destruct Hpos as [[_ ->] | [[_ ->] | [[_ ->] | [_ ->]]]]; cbn; repeat constructor; done.
Qed.

Lemma first_period_holds_no_position_witness :
  let p := {| num_sectors := 1; trading_frequency := "M"; start_date := 0;
              end_date := None; invert_long := false; invert_short := true;
              legs := "LS" |} in
  exists s,
    generate_signals p 3 [[of_Z 1; of_Z 2; of_Z 3]; [of_Z 3; of_Z 2; of_Z 1]] = inr s /\
    Forall (fun mtx => mtx !! 0%nat = Some [zero; zero]) (leg_matrices (positions s)).
Proof.
  intros p.
  destruct (generate_signals p 3 [[of_Z 1; of_Z 2; of_Z 3]; [of_Z 3; of_Z 2; of_Z 1]])
    as [e | s] eqn:Es; [by vm_compute in Es|].
  exists s. split; [reflexivity|].
  apply (first_period_holds_no_position _ _ _ _ Es). lia.
Defined.

(** ** More on the turnover *)

Lemma nabs_nonneg x : x <> NaN -> nleb zero (nabs x) = true.
Proof.
  destruct x as [a| | |]; try done. intros _. apply nleb_Fin, Qcabs_nonneg.
Qed.

Lemma nadd_nonneg x y :
  nleb zero x = true -> nleb zero y = true -> nleb zero (nadd x y) = true.
Proof.
  destruct x as [a| | |], y as [b| | |]; try done.
  unfold zero, nadd. rewrite !nleb_Fin. intros Ha Hb.
  replace 0%Qc with (0 + 0)%Qc by ring. by apply Qcplus_le_compat.
Qed.

Lemma abs_sum_nonneg row : nleb zero (abs_sum row) = true.
Proof.
  unfold abs_sum, nansum, dropna. induction row as [|x row IH]; [done|].
  cbn [map List.filter]. destruct x as [a| | |]; cbn [nabs notna isna negb foldr];
    try exact IH; apply nadd_nonneg; try exact IH; try done.
  apply nleb_Fin, Qcabs_nonneg.
Qed.

(** X8.  Whatever the position matrix holds (missing and infinite cells
    included), every turnover value [calculate_turnover] returns is a
    number that is at least 0: never missing and never negative. *)
Theorem turnover_is_nonnegative positions turnover :
  calculate_turnover positions = inr turnover ->
  length turnover = length positions /\
  Forall (fun x => x <> NaN /\ nleb zero x = true) turnover.
Proof.
  destruct positions as [|r0 rest]; [done|].
  rewrite calculate_turnover_cons. intros [= <-]. split.
  { cbn. rewrite length_map, length_zip_with. cbn. f_equal. lia. }
  assert (Hnn : forall row, abs_sum row <> NaN /\ nleb zero (abs_sum row) = true).
  { intros row. pose proof (abs_sum_nonneg row) as Hrow.
    split; [|done]. intros Heq. by rewrite Heq in Hrow. }
  constructor; [apply Hnn|].
  apply Forall_fmap, Forall_forall. intros row _. apply Hnn.
Qed.

Lemma turnover_is_nonnegative_witness :
  exists turnover,
    calculate_turnover [[NaN; of_Z 1]; [PInf; of_Z (-2)]; [NInf; NaN]] = inr turnover /\
    Forall (fun x => x <> NaN /\ nleb zero x = true) turnover.
Proof.
  destruct (calculate_turnover [[NaN; of_Z 1]; [PInf; of_Z (-2)]; [NInf; NaN]])
    as [e | turnover] eqn:Et; [by vm_compute in Et|].
  exists turnover. split; [reflexivity|].
  exact (proj2 (turnover_is_nonnegative _ _ Et)).
Defined.

Lemma nabs_nsub_same x : nabs (nsub x x) = zero \/ nabs (nsub x x) = NaN.
Proof.
  destruct x as [a| | |]; [left | by right..].
  unfold nsub, nneg, nadd, nabs, zero. apply (f_equal Fin).
  rewrite Qcplus_opp_r. by apply Qc_is_canon.
Qed.

Lemma abs_sum_unchanged row : abs_sum (zip_with nsub row row) = zero.
Proof.
  unfold abs_sum, nansum, dropna. induction row as [|x row IH]; [done|].
  cbn [zip_with map List.filter].
  destruct (nabs_nsub_same x) as [-> | ->]; cbn [notna isna negb zero foldr];
    [|exact IH].
  change (Fin 0%Qc) with zero. rewrite IH. apply nadd_zero_zero.
Qed.

Lemma zero_cost_of_no_turnover c : nmul zero (ndiv (Fin c) (of_Z 10000)) = zero.
Proof.
  unfold of_Z, ndiv. assert ((Q2Qc (inject_Z 10000) ?= 0)%Qc = Gt) as -> by done.
  unfold zero, nmul. apply (f_equal Fin). apply Qcmult_0_l.
Qed.

(** X9.  In a period whose position row repeats the row of the period
    before, the turnover is exactly 0 and, at any finite cost setting,
    the cost-adjusted return of that period is the raw return: a book
    that is not rebalanced pays no transaction cost. *)
Theorem unchanged_positions_cost_nothing positions turnover t row :
  calculate_turnover positions = inr turnover ->
  positions !! t = Some row -> positions !! S t = Some row ->
  turnover !! S t = Some zero /\
  forall returns c r,
    returns !! S t = Some r ->
    adjust_returns_for_transaction_costs returns turnover (Fin c) !! S t = Some r.
Proof.
  intros Ht Hprev Hrow.
  assert (Hzero : turnover !! S t = Some zero).
  { destruct positions as [|r0 rest]; [done|].
    rewrite calculate_turnover_cons in Ht. injection Ht as <-.
    change (map abs_sum (zip_with (zip_with nsub) rest (r0 :: rest)) !! t = Some zero).
    change (rest !! t = Some row) in Hrow.
    unfold matrix in *.
    rewrite list_lookup_fmap, lookup_zip_with, Hrow. cbn [mbind option_bind].
    rewrite Hprev. cbn. by rewrite abs_sum_unchanged. }
  split; [exact Hzero|].
  intros returns c r Hr.
  rewrite (adjust_lookup _ _ _ _ _ _ Hr Hzero).
  by rewrite zero_cost_of_no_turnover, nsub_zero.
Qed.

Lemma unchanged_positions_cost_nothing_witness :
  exists turnover,
    calculate_turnover [[of_Z 1; of_Z 0]; [of_Z 0; of_Z 1]; [of_Z 0; of_Z 1]] =
      inr turnover /\
    adjust_returns_for_transaction_costs [of_Z 3; of_Z 4; of_Z 5] turnover (of_Z 25)
      !! 2%nat = Some (of_Z 5).
Proof.
  destruct (calculate_turnover [[of_Z 1; of_Z 0]; [of_Z 0; of_Z 1]; [of_Z 0; of_Z 1]])
    as [e | turnover] eqn:Et; [by vm_compute in Et|].
  exists turnover. split; [reflexivity|].
  destruct (unchanged_positions_cost_nothing _ _ 1%nat [of_Z 0; of_Z 1] Et)
    as [_ Hadj]; [reflexivity | reflexivity |].
  by apply Hadj.
Defined.

(** ** More on the results collection *)

Lemma update_app d items items' :
  update d (items ++ items') = update (update d items) items'.
Proof. unfold update. apply foldl_app. Qed.

Lemma update_lookup_elem d items key e :
  update d items !! key = Some e -> (key, e) ∈ items \/ d !! key = Some e.
Proof.
  revert d. induction items as [|[k v] items IH]; intros d; [by right|].
  change (update d ((k, v) :: items)) with (update (<[k := v]> d) items).
  intros [Hin | Hd]%IH; [left; by right|].
  destruct (decide (k = key)) as [-> | Hne].
  - rewrite lookup_insert_eq in Hd. injection Hd as ->. left. by left.
  - rewrite lookup_insert_ne in Hd by done. by right.
Qed.

Lemma update_lookup_in d items key e :
  NoDup items.*1 -> (key, e) ∈ items -> update d items !! key = Some e.
Proof.
  revert d. induction items as [|[k v] items IH]; intros d Hnd Hin.
  - by apply elem_of_nil in Hin.
  - change (update d ((k, v) :: items)) with (update (<[k := v]> d) items).
    cbn in Hnd. apply NoDup_cons in Hnd as [Hk Hnd].
    apply elem_of_cons in Hin as [[= -> ->] | Hin]; [|by apply IH].
    rewrite update_lookup_other; [apply lookup_insert_eq|].
    apply Forall_forall. intros [k' v'] Hin' Heq. cbn in Heq. subst k'.
    apply Hk, list_elem_of_fmap. by exists (k, v').
Qed.

Lemma run_strategies_app d pre post :
  run_strategies d (pre ++ post) =
  let* d1 := run_strategies d pre in run_strategies d1 post.
Proof.
  revert d. induction pre as [|s pre IH]; intros d; [done|].
  cbn [app run_strategies].
  destruct (signals s) as [e | sg]; cbn [bind]; [done|].
  destruct (calculate_strategy_returns s sg) as [e | data]; cbn [bind]; [done|].
  apply IH.
Qed.

(** X10.  The strategy that runs last wins: after a completed
    [run_backtest] every entry the last strategy produced is in the
    results under its key, also when an earlier strategy of the same name
    had written that key before (the orchestrator does not detect the
    collision). *)
Theorem last_strategy_overwrites returns_dict benchmark pre strategy sg data results :
  run_backtest returns_dict benchmark (pre ++ [strategy]) = inr results ->
  signals strategy = inr sg ->
  calculate_strategy_returns strategy sg = inr data ->
  NoDup data.*1 ->
  forall key e, (key, e) ∈ data -> results !! key = Some e.
Proof.
  unfold run_backtest. rewrite run_strategies_app.
  destruct (run_strategies _ pre) as [err | d1]; cbn [bind]; [done|].
  cbn [run_strategies]. intros Hrun Hsg Hdata Hnd key e Hin.
  rewrite Hsg in Hrun. cbn [bind] in Hrun. rewrite Hdata in Hrun. cbn [bind] in Hrun.
  injection Hrun as <-. by apply update_lookup_in.
Qed.

Lemma last_strategy_overwrites_witness :
  let benchmark := {| entry_returns := [of_Z 0]; entry_turnover := [of_Z 0];
                      entry_trading_frequency := "M" |} in
  let sg w := {| positions := OneLeg [[of_Z w]]; asset_returns := [[of_Z 2]];
                 sig_trading_frequency := "M"; top_presence_matrix := [];
                 bottom_presence_matrix := []; combined_presence_matrix := [] |} in
  let strat w := {| name := "Twin"; strategy_legs := "L";
                    transaction_cost_bps := zero; signals := inr (sg w) |} in
  exists results,
    run_backtest ∅ benchmark [strat 1; strat 3] = inr results /\
    results !! "Twin - Long"%string =
      Some {| entry_returns := [of_Z 6]; entry_turnover := [of_Z 3];
              entry_trading_frequency := "M" |}.
Proof.
  intros benchmark sg strat.
  destruct (run_backtest ∅ benchmark [strat 1; strat 3]) as [e | results] eqn:Erun;
    [by vm_compute in Erun|].
  exists results. split; [reflexivity|].
  destruct (calculate_strategy_returns (strat 3) (sg 3)) as [e | data] eqn:Edata;
    [by vm_compute in Edata|].
  apply (last_strategy_overwrites ∅ benchmark [strat 1] (strat 3) (sg 3) data results
           Erun eq_refl Edata).
  - vm_compute in Edata. injection Edata as <-. cbn. repeat constructor. set_solver.
  - vm_compute in Edata. injection Edata as <-.
    apply list_elem_of_singleton. reflexivity.
Defined.

Lemma run_strategies_keys d strategies d' key e :
  run_strategies d strategies = inr d' ->
  d' !! key = Some e ->
  d !! key = Some e \/
  exists strategy sg data,
    strategy ∈ strategies /\ signals strategy = inr sg /\
    calculate_strategy_returns strategy sg = inr data /\ (key, e) ∈ data.
Proof.
  revert d. induction strategies as [|s rest IH]; intros d; cbn [run_strategies].
  - intros [= <-] Hkey. by left.
  - destruct (signals s) as [err | sg] eqn:Esg; cbn [bind]; [done|].
    destruct (calculate_strategy_returns s sg) as [err | data] eqn:Edata;
      cbn [bind]; [done|].
    intros Hrun Hkey.
    destruct (IH _ Hrun Hkey) as [Hd | (s' & sg' & data' & Hin & Hs' & Hdata' & He)].
    + apply update_lookup_elem in Hd as [Hin | Hd]; [|by left].
      right. exists s, sg, data. split; [by left | done].
    + right. exists s', sg', data'. split; [by right | done].
Qed.

Lemma calculate_strategy_returns_empty strategy sg :
  positions sg = OneLeg [] -> strategy_legs strategy <> "ALL"%string ->
  calculate_strategy_returns strategy sg = inl IndexError.
Proof.
  intros Hpos Hlegs. unfold calculate_strategy_returns.
  destruct (String.eqb (strategy_legs strategy) "ALL") eqn:E.
  - by apply String.eqb_eq in E.
  - by rewrite Hpos.
Qed.

(** X12.  [run_backtest] stops at the first strategy that fails and
    returns its error, whether the signals could not be generated or
    the returns could not be computed; in particular a single-leg
    strategy whose position matrix has no row (no period in the date
    range) fails the whole backtest with an index error. *)
Theorem first_failure_aborts_backtest returns_dict benchmark pre strategy post d1 e :
  run_backtest returns_dict benchmark pre = inr d1 ->
  (signals strategy = inl e \/
   exists sg, signals strategy = inr sg /\
              (calculate_strategy_returns strategy sg = inl e \/
               e = IndexError /\ positions sg = OneLeg [] /\
               strategy_legs strategy <> "ALL"%string)) ->
  run_backtest returns_dict benchmark (pre ++ strategy :: post) = inl e.
Proof.
  unfold run_backtest. intros Hpre Hfail.
  rewrite run_strategies_app, Hpre. cbn [bind run_strategies].
  destruct Hfail as [Hsg | (sg & Hsg & [Hdata | (-> & Hpos & Hlegs)])];
    rewrite Hsg; cbn [bind]; [done | |].
  - by rewrite Hdata.
  - by rewrite (calculate_strategy_returns_empty _ _ Hpos Hlegs).
Qed.

Lemma first_failure_aborts_backtest_witness :
  let benchmark := {| entry_returns := [of_Z 0]; entry_turnover := [of_Z 0];
                      entry_trading_frequency := "M" |} in
  let sg m := {| positions := OneLeg m; asset_returns := m;
                 sig_trading_frequency := "M"; top_presence_matrix := [];
                 bottom_presence_matrix := []; combined_presence_matrix := [] |} in
  let strat m := {| name := "Solo"; strategy_legs := "L";
                    transaction_cost_bps := zero; signals := inr (sg m) |} in
  run_backtest ∅ benchmark [strat [[of_Z 1]]; strat []; strat [[of_Z 2]]] =
  inl IndexError.
Proof.
  intros benchmark sg strat.
  destruct (run_backtest ∅ benchmark [strat [[of_Z 1]]]) as [err | d1] eqn:Epre;
    [by vm_compute in Epre|].
  apply (first_failure_aborts_backtest ∅ benchmark [strat [[of_Z 1]]] (strat [])
           [strat [[of_Z 2]]] d1 IndexError Epre).
  right. exists (sg []). split; [reflexivity|]. right. by repeat split.
Defined.

(** X13.  A single-leg strategy with a position matrix of at least one
    row yields exactly one entry: under "<name> - Long" for the leg code
    L, "<name> - Short" for S and "<name> - Combined" for LS; any other
    code but ALL (a lower-case code as well) raises a key error after the
    returns have been computed. *)
Theorem single_leg_entry strategy sg row rest :
  positions sg = OneLeg (row :: rest) ->
  strategy_legs strategy <> "ALL"%string ->
  (forall label,
     (strategy_legs strategy, label) ∈
       [("L", "Long"); ("S", "Short"); ("LS", "Combined")]%string ->
     exists e,
       calculate_strategy_returns strategy sg =
         inr [((name strategy ++ " - " ++ label)%string, e)] /\
       calculate_turnover (row :: rest) = inr (entry_turnover e)) /\
  (strategy_legs strategy ∉ ["L"; "S"; "LS"]%string ->
   calculate_strategy_returns strategy sg = inl (KeyError (strategy_legs strategy))).
Proof.
  intros Hpos Hlegs. unfold calculate_strategy_returns.
  destruct (String.eqb (strategy_legs strategy) "ALL") eqn:E;
    [by apply String.eqb_eq in E|].
  rewrite Hpos. unfold leg_entry. rewrite calculate_turnover_cons. cbn [bind ret].
  split.
  - intros label Hin.
    assert (Hlabel : leg_names !! strategy_legs strategy = Some label).
    { unfold leg_names. apply elem_of_list_to_map_1; [|done].
      compute_done. }
    rewrite Hlabel. eexists. split; [reflexivity|]. reflexivity.
  - intros Hout.
    assert (Hnone : leg_names !! strategy_legs strategy = None).
    { unfold leg_names. by apply not_elem_of_list_to_map_1. }
    by rewrite Hnone.
Qed.

Lemma single_leg_entry_witness :
  let sg := {| positions := OneLeg [[of_Z 3]]; asset_returns := [[of_Z 2]];
               sig_trading_frequency := "M"; top_presence_matrix := [];
               bottom_presence_matrix := []; combined_presence_matrix := [] |} in
  let strat code := {| name := "Solo"; strategy_legs := code;
                       transaction_cost_bps := zero; signals := inr sg |} in
  (exists e, calculate_strategy_returns (strat "LS") sg =
             inr [("Solo - Combined"%string, e)]) /\
  calculate_strategy_returns (strat "ls") sg = inl (KeyError "ls").
Proof.
  intros sg strat. split.
  - destruct (single_leg_entry (strat "LS"%string) sg [of_Z 3] [] eq_refl) as [Hok _];
      [done|].
    destruct (Hok "Combined"%string) as (e & He & _); [set_solver|].
    by exists e.
  - destruct (single_leg_entry (strat "ls"%string) sg [of_Z 3] [] eq_refl) as [_ Hbad];
      [done|].
    apply Hbad. compute_done.
Defined.

(** ** The legs of a strategy and their entries *)

Lemma leg_entry_inv strategy sg pos e :
  leg_entry strategy sg pos = inr e -> is_leg_entry strategy sg pos e.
Proof.
  unfold leg_entry, is_leg_entry.
  destruct (calculate_turnover pos) as [err | turnover]; cbn [bind]; [done|].
  by intros [= <-].
Qed.




(** An entry of the returns of a strategy is the entry of one of its
    legs. *)
Lemma calculate_strategy_returns_legs strategy sg data key e :
  calculate_strategy_returns strategy sg = inr data ->
  (key, e) ∈ data ->
  exists leg_name pos,
    leg_of strategy sg leg_name pos /\
    key = leg_key (name strategy) leg_name /\
    is_leg_entry strategy sg pos e.
Proof.
  unfold calculate_strategy_returns, leg_of.
  destruct (String.eqb (strategy_legs strategy) "ALL") eqn:Elegs,
    (positions sg) as [m | d]; try done.
  - apply String.eqb_eq in Elegs. intros Hdata Hin.
    destruct (all_legs_entries _ _ _ _ _ _ Hdata Hin) as (leg & pos & Hd & Hkey & He).
    exists leg, pos. split; [done|]. split; [done | by apply leg_entry_inv].
  - assert (Hne : strategy_legs strategy <> "ALL"%string).
    { intros Heq. rewrite Heq in Elegs. discriminate Elegs. }
    destruct (leg_entry strategy sg m) as [err | e0] eqn:Ee0; cbn [bind]; [done|].
    destruct (leg_names !! strategy_legs strategy) as [leg|] eqn:Eleg; [|done].
    intros [= <-] Hin. apply list_elem_of_singleton in Hin as [= -> ->].
    exists leg, m. split; [done|]. split; [done | by apply leg_entry_inv].
Qed.











(** X11.  [run_backtest] adds nothing but the benchmark and the legs of
    its strategies: every entry of the results is the benchmark's under
    "Benchmark", or an entry the dictionary held before the call, or the
    entry of a leg of one of the strategies (a matrix of the strategy's
    position dictionary under its name for the leg code ALL, the
    strategy's one matrix under Long, Short or Combined for L, S or LS),
    stored under "<strategy name> - <leg name>" with the turnover of that
    leg's positions, that leg's cost-adjusted weighted returns and the
    trading frequency of the signals. *)
Theorem results_hold_only_benchmark_and_legs
    returns_dict benchmark strategies results key e :
  run_backtest returns_dict benchmark strategies = inr results ->
  results !! key = Some e ->
  (key = "Benchmark"%string /\ e = benchmark) \/
  (key <> "Benchmark"%string /\ returns_dict !! key = Some e) \/
  (exists strategy sg leg_name pos,
     strategy ∈ strategies /\ signals strategy = inr sg /\
     match positions sg with
     | AllLegs d => strategy_legs strategy = "ALL"%string /\ (leg_name, pos) ∈ d
     | OneLeg m =>
         m = pos /\
         (strategy_legs strategy, leg_name) ∈
           [("L", "Long"); ("S", "Short"); ("LS", "Combined")]%string
     end /\
     key = String.append (name strategy) (String.append " - " leg_name) /\
     calculate_turnover pos = inr (entry_turnover e) /\
     entry_returns e =
       adjust_returns_for_transaction_costs
         (weighted_returns (asset_returns sg) pos) (entry_turnover e)
         (transaction_cost_bps strategy) /\
     entry_trading_frequency e = sig_trading_frequency sg).
Proof.
  unfold run_backtest. intros Hrun Hkey.
  destruct (run_strategies_keys _ _ _ _ _ Hrun Hkey)
    as [Hd | (s & sg & data & Hin & Hsg & Hdata & He)].
  - destruct (decide (key = "Benchmark"%string)) as [-> | Hne].
    + rewrite lookup_insert_eq in Hd. injection Hd as ->. by left.
    + rewrite lookup_insert_ne in Hd by done. right. by left.
  - right. right.
    destruct (calculate_strategy_returns_legs _ _ _ _ _ Hdata He)
      as (leg & pos & Hleg & -> & Hturn & Hret & Hfreq).
    exists s, sg, leg, pos. split; [done|]. split; [done|].
    split; [|done].
    unfold leg_of in Hleg. destruct (positions sg) as [m | d]; [|done].
    destruct Hleg as (_ & -> & Hlabel). split; [done|].
    unfold leg_names in Hlabel. by apply elem_of_list_to_map_2 in Hlabel.
Qed.

Lemma results_hold_only_benchmark_and_legs_witness :
  let benchmark := {| entry_returns := [of_Z 0]; entry_turnover := [of_Z 0];
                      entry_trading_frequency := "M" |} in
  let sg := {| positions := OneLeg [[of_Z 3]]; asset_returns := [[of_Z 2]];
               sig_trading_frequency := "M"; top_presence_matrix := [];
               bottom_presence_matrix := []; combined_presence_matrix := [] |} in
  let strat := {| name := "Solo"; strategy_legs := "S";
                  transaction_cost_bps := zero; signals := inr sg |} in
  exists results e,
    run_backtest ∅ benchmark [strat] = inr results /\
    results !! "Solo - Short"%string = Some e /\
    calculate_turnover [[of_Z 3]] = inr (entry_turnover e).
Proof.
  intros benchmark sg strat.
  destruct (run_backtest ∅ benchmark [strat]) as [err | results] eqn:Erun;
    [by vm_compute in Erun|].
  destruct (results !! "Solo - Short"%string) as [e|] eqn:Ee.
  2:{ vm_compute in Erun. injection Erun as <-. by vm_compute in Ee. }
  exists results, e. split; [reflexivity|]. split; [exact Ee|].
  destruct (results_hold_only_benchmark_and_legs _ _ _ _ _ _ Erun Ee)
    as [[Hk _] | [[_ Hd] | (s & sg' & leg & pos & Hin & Hsg & Hleg & _ & Hturn & _)]];
    [done | done |].
  apply list_elem_of_singleton in Hin as ->. injection Hsg as <-.
  cbn in Hleg. by destruct Hleg as [<- _].
Defined.

(** ** Equal scores: the first sectors in column order *)

(** The first [c] labels of the scored cells of a row are the scored
    columns that fewer than [c] scored columns precede. *)
Lemma first_scored_columns (s : nat) (m : list number) (c : nat) (j : nat) :
  j ∈ (take c (List.filter (fun p : nat * number => notna (snd p))
                 (imap (fun i x => ((s + i)%nat, x)) m))).*1 <->
  exists i x, j = (s + i)%nat /\ m !! i = Some x /\ x <> NaN /\
              (length (dropna (take i m)) < c)%nat.
Proof.
  revert s c. induction m as [|y m IH]; intros s c.
  - cbn. rewrite take_nil. split; [by intros ?%elem_of_nil|].
    by intros (i & x & _ & Hx & _).
  - cbn [imap List.filter snd].
    assert (Hshift : imap ((fun i x => ((s + i)%nat, x)) ∘ S) m =
                     imap (fun i x => ((S s + i)%nat, x)) m).
    { apply imap_ext. intros i x _. cbn. f_equal. lia. }
    rewrite Hshift. destruct (notna y) eqn:Ey.
    + assert (Hy : y <> NaN) by (by destruct y).
      assert (Hdrop : forall i, length (dropna (take (S i) (y :: m))) =
                                S (length (dropna (take i m)))).
      { intros i. unfold dropna. cbn. by rewrite Ey. }
      destruct c as [|c].
      { split; [by intros ?%elem_of_nil | intros (i & x & _ & _ & _ & Hlt); lia]. }
      cbn [take fmap list_fmap fst]. rewrite elem_of_cons, IH. split.
      * intros [-> | (i & x & -> & Hx & Hxn & Hlt)].
        -- exists 0%nat, y. split; [lia|]. split; [done|]. split; [done|]. cbn. lia.
        -- exists (S i), x. split; [lia|]. split; [done|]. split; [done|].
           rewrite Hdrop. lia.
      * intros (i & x & -> & Hx & Hxn & Hlt). destruct i as [|i].
        -- left. lia.
        -- right. exists i, x. rewrite Hdrop in Hlt.
           split; [lia|]. split; [done|]. split; [done|]. lia.
    + assert (Hy : y = NaN) by (by destruct y).
      assert (Hdrop : forall i, length (dropna (take (S i) (y :: m))) =
                                length (dropna (take i m))).
      { intros i. unfold dropna. cbn. by rewrite Ey. }
      rewrite IH. split.
      * intros (i & x & -> & Hx & Hxn & Hlt). exists (S i), x.
        split; [lia|]. split; [done|]. split; [done|]. rewrite Hdrop. lia.
      * intros (i & x & -> & Hx & Hxn & Hlt). destruct i as [|i].
        -- cbn in Hx. injection Hx as <-. done.
        -- exists i, x. rewrite Hdrop in Hlt.
           split; [lia|]. split; [done|]. split; [done|]. lia.
Qed.

Lemma first_valid_columns m c j :
  j ∈ (take c (valid m)).*1 <->
  (exists x, m !! j = Some x /\ x <> NaN) /\ (length (dropna (take j m)) < c)%nat.
Proof.
  unfold valid, labelled.
  rewrite (first_scored_columns 0 m c j). split.
  - intros (i & x & -> & Hx & Hxn & Hlt). split; [by exists x | done].
  - intros [(x & Hx & Hxn) Hlt]. by exists j, x.
Qed.

(** X5.  When all the sectors that have a momentum score have the same
    score, the largest and the smallest are both taken first-come in
    column order: in the top row as in the bottom row a sector is marked
    exactly when it has a score and fewer than [min(k, available // 2)]
    sectors with a score stand in the columns before it.  The two rows
    are then the same and the combined row without inversion is a row of
    zeros: the long and the short weights cancel. *)
Theorem equal_scores_cancel k m :
  (forall j j' x y, m !! j = Some x -> m !! j' = Some y ->
                    x <> NaN -> y <> NaN -> x = y) ->
  (forall j,
     (select_row k m).1 !! j = Some one <->
     (exists x, m !! j = Some x /\ x <> NaN) /\
     Z.of_nat (length (dropna (take j m))) <
       Z.min k (Z.of_nat (length (dropna m)) / 2)) /\
  (forall j,
     (select_row k m).2 !! j = Some one <->
     (exists x, m !! j = Some x /\ x <> NaN) /\
     Z.of_nat (length (dropna (take j m))) <
       Z.min k (Z.of_nat (length (dropna m)) / 2)) /\
  (select_row k m).1 = (select_row k m).2 /\
  combined_row (long_row false (select_row k m).1)
               (short_row false (select_row k m).2) = replicate (length m) zero.
Proof.
  intros Hties.
  assert (Hle : forall p q, p ∈ valid m -> q ∈ valid m -> nleb (snd p) (snd q) = true).
  { intros [j x] [j' y] [Hx Hxn]%elem_of_valid [Hy Hyn]%elem_of_valid. cbn.
    rewrite (Hties j j' x y) by done. by apply nleb_refl. }
  assert (Hn : num_selected_sectors k m =
               Z.min k (Z.of_nat (length (dropna m)) / 2)).
  { unfold num_selected_sectors. by rewrite length_valid. }
  assert (Hsame : (select_row k m).1 = (select_row k m).2).
  { unfold select_row. destruct (num_selected_sectors k m =? 0); [done|].
    cbn [fst snd]. f_equal. unfold nlargest, nsmallest.
    destruct (num_selected_sectors k m <=? 0); [done|].
    rewrite !sort_by_all_le; [done | by auto | by auto]. }
  assert (Htop : forall j,
            (select_row k m).1 !! j = Some one <->
            (exists x, m !! j = Some x /\ x <> NaN) /\
            Z.of_nat (length (dropna (take j m))) <
              Z.min k (Z.of_nat (length (dropna m)) / 2)).
  { intros j. rewrite <- Hn. unfold select_row.
    destruct (num_selected_sectors k m =? 0) eqn:E; cbn [fst snd].
    { apply Z.eqb_eq in E. rewrite E. split; [by intros ?%blank_not_one | lia]. }
    destruct (Z_le_gt_dec (num_selected_sectors k m) 0) as [Hle0 | Hgt].
    { rewrite nlargest_nonpositive by done.
      split; [by intros ?%blank_not_one | lia]. }
    unfold nlargest. destruct (num_selected_sectors k m <=? 0) eqn:E0; [lia|].
    rewrite sort_by_all_le by auto.
    rewrite set_ones_lookup_one.
    change (map fst (take (Z.to_nat (num_selected_sectors k m)) (valid m)))
      with (take (Z.to_nat (num_selected_sectors k m)) (valid m)).*1.
    rewrite first_valid_columns. split.
    - intros [[Hx Hlt] _]. split; [done | lia].
    - intros [(x & Hx & Hxn) Hlt]. split; [split; [by exists x | lia]|].
      by eapply lookup_lt_Some. }
  split; [exact Htop|]. split; [by rewrite <- Hsame|]. split; [exact Hsame|].
  rewrite <- Hsame. unfold combined_row, long_row, short_row.
  destruct (select_row_shape k m) as (Hbin & _ & Hlt & _).
  rewrite zip_nadd_nneg by by apply equal_weights_finite.
  by rewrite length_equal_weights, Hlt.
Qed.

Lemma equal_scores_cancel_witness :
  let m := [NaN; of_Z 0; of_Z 0; NaN; of_Z 0; of_Z 0] in
  (select_row 2 m).1 !! 2%nat = Some one /\
  (select_row 2 m).1 = [zero; one; one; zero; zero; zero] /\
  (select_row 2 m).2 = [zero; one; one; zero; zero; zero] /\
  combined_row (long_row false (select_row 2 m).1)
               (short_row false (select_row 2 m).2) = replicate 6 zero.
Proof.
  intros m.
  assert (Htop : (select_row 2 m).1 = [zero; one; one; zero; zero; zero]) by compute_done.
  destruct (equal_scores_cancel 2 m) as (Hmark & _ & Hsame & Hcomb).
  { intros j j' x y Hx Hy Hxn Hyn.
    assert (Hall : forall i z, m !! i = Some z -> z <> NaN -> z = of_Z 0).
    { intros i z Hz Hzn. do 6 (destruct i as [|i]; [cbn in Hz; congruence|]).
      discriminate Hz. }
    by rewrite (Hall j x Hx Hxn), (Hall j' y Hy Hyn). }
  split.
  { apply Hmark. split; [exists (of_Z 0); by split|]. by vm_compute. }
  split; [exact Htop|]. split; [by rewrite <- Hsame | exact Hcomb].
Defined.

(** C5.  In every period of the momentum strategy, with a sector count
    [k >= 0]: of the sectors whose momentum score is not missing, exactly
    [min(k, available // 2)] are selected for the long side and as many
    for the short side; a sector selected long has a score at least that
    of every scored sector not selected long, a sector selected short a
    score at most that of every scored sector not selected short; when
    the count is 0 no sector is selected and the long, short and combined
    position rows of the period are rows of exact zeros.  The selection
    is a total function: no error is raised. *)
Theorem sector_selection k m :
  0 <= k ->
  let n := Z.min k (Z.of_nat (length (dropna m)) / 2) in
  let top := (select_row k m).1 in
  let bottom := (select_row k m).2 in
  Z.of_nat (count_ones top) = n /\
  Z.of_nat (count_ones bottom) = n /\
  length top = length m /\ length bottom = length m /\
  binary_row top /\ binary_row bottom /\
  (forall j, top !! j = Some one -> exists x, m !! j = Some x /\ x <> NaN) /\
  (forall j, bottom !! j = Some one -> exists x, m !! j = Some x /\ x <> NaN) /\
  (forall j x j' y,
     m !! j = Some x -> m !! j' = Some y -> y <> NaN ->
     top !! j = Some one -> top !! j' = Some zero -> nleb y x = true) /\
  (forall j x j' y,
     m !! j = Some x -> m !! j' = Some y -> y <> NaN ->
     bottom !! j = Some one -> bottom !! j' = Some zero -> nleb x y = true) /\
  (n = 0 ->
   top = replicate (length m) zero /\ bottom = replicate (length m) zero /\
   forall invert_l invert_s,
     long_row invert_l top = replicate (length m) zero /\
     short_row invert_s bottom = replicate (length m) zero /\
     combined_row (long_row invert_l top) (short_row invert_s bottom) =
       replicate (length m) zero).
Proof.
  intros Hk n top bottom.
  destruct (select_row_marks k m Hk) as (Hct & Hcb & Hst & Hsb).
  destruct (select_row_shape k m) as (Hbt & Hbb & Hlt & Hlb).
  do 8 (split; [done|]).
  split; [intros j x j' y Hx Hy Hyn; exact (proj1 (select_row_ranks k m j x j' y Hx Hy Hyn))|].
  split; [intros j x j' y Hx Hy Hyn; exact (proj2 (select_row_ranks k m j x j' y Hx Hy Hyn))|].
  intros Hn.
  assert (Hcase : k = 0 \/ (length (dropna m) < 2)%nat).
  { subst n. destruct (decide (k = 0)) as [|Hne]; [by left | right].
    assert (Hdiv : Z.of_nat (length (dropna m)) / 2 = 0) by lia.
    apply Z.div_small_iff in Hdiv; lia. }
  destruct (select_row_blank k m false false Hcase) as (Hsel & _).
  subst top bottom. rewrite Hsel. cbn [fst snd].
  split; [done|]. split; [done|].
  intros il is_. by rewrite long_row_blank, short_row_blank, combined_blank.
Qed.

Lemma sector_selection_witness :
  let m := [of_Z 5; NaN; of_Z 1; of_Z 3; of_Z 2; of_Z 4] in
  Z.of_nat (count_ones (select_row 7 m).1) = 2 /\
  Z.of_nat (count_ones (select_row 7 m).2) = 2 /\
  (select_row 7 m).1 = [one; zero; zero; zero; zero; one] /\
  (select_row 7 m).2 = [zero; zero; one; zero; one; zero] /\
  long_row false (select_row 0 m).1 = replicate 6 zero.
Proof.
  intros m.
  destruct (sector_selection 7 m) as (Htop & Hbottom & _); [lia|].
  destruct (sector_selection 0 m) as (_ & _ & _ & _ & _ & _ & _ & _ & _ & _ & Hzero);
    [lia|].
  split; [exact Htop|]. split; [exact Hbottom|].
  split; [compute_done|]. split; [compute_done|].
  destruct Hzero as (_ & _ & Hrows); [by vm_compute|].
  by destruct (Hrows false false) as [Hlong _].
Defined.
